(** * Telco customer churn notebook: cohort, funnel and experiment stages

    Shallow embedding of the data transformations of
    [Growth&Churn _Analysis_Telco] (cells "2. Cohort & Retention Analysis",
    "3. Funnel Analysis" and "4. Simulated A/B Test").

    Conventions.
    - A table is a list of rows in index order.  A cell that pandas reads as
      missing (NaN / NaT) is [None].
    - Integer columns and counts are [Z].
    - The result of pandas' true division [/] is a [float64]: either the exact
      quotient (a rational, kept in lowest terms), an infinity, or NaN.
      Rounding of the quotient to binary64 is not modelled; it is monotone and
      leaves 0 and 1 fixed, so the bounds stated below are unaffected.
    - The unseeded draw of [np.random.choice] is a stream [rng : nat -> group]
      of realised labels; quantifying over [rng] is quantifying over seeds.
    - Dates are whole seconds since 1970-01-01 in [Z]; the finite range of
      pandas' nanosecond timestamps is not modelled.
    - The model stage (cell 5) calls into scikit-learn only and is not
      embedded. *)

From Stdlib Require Import ZArith QArith List Lia Bool.
From Stdlib Require Import Sorted.
From stdpp Require Import gmap strings.
Import ListNotations.
Open Scope Z_scope.

(** ** Values *)

(** Result of a float division. *)
Inductive float64 :=
| Finite (q : Q)
| PosInf
| NegInf
| NaN.

(** [n / d] on integer operands, as numpy evaluates it under pandas
    (division by zero raises nothing: it yields an infinity or NaN). *)
Definition truediv (n d : Z) : float64 :=
  if d =? 0 then
    if n =? 0 then NaN else if 0 <? n then PosInf else NegInf
  else Finite (Qred (inject_Z n / inject_Z d)).

Definition is_nan (x : float64) : bool :=
  match x with NaN => true | _ => false end.

(** [0 <= x <= 1]; every comparison with NaN is false. *)
Definition in_unit_interval (x : float64) : Prop :=
  match x with
  | Finite q => (0 <= q /\ q <= 1)%Q
  | _ => False
  end.

(** [x < y] on floats, restricted to what the development needs:
    false as soon as one side is not finite. *)
Definition float_lt (x y : float64) : Prop :=
  match x, y with
  | Finite p, Finite q => (p < q)%Q
  | _, _ => False
  end.

(** ** The loaded table *)

(** One row of the CSV, restricted to the columns the three stages read. *)
Record customer := {
  customerID : option string;
  tenure : option Z;
  Contract : option string;
  InternetService : option string;
  StreamingTV : option string;
  StreamingMovies : option string;
  Churn : option string
}.

(** Element-wise [series == s] and [series != s]: a missing cell is equal to
    nothing. *)
Definition cell_eq (x : option string) (s : string) : bool :=
  match x with
  | Some v => String.eqb v s
  | None => false
  end.

Definition cell_ne (x : option string) (s : string) : bool :=
  negb (cell_eq x s).

Definition series_eq (col : list (option string)) (s : string) : list bool :=
  map (fun x => cell_eq x s) col.

Definition series_ne (col : list (option string)) (s : string) : list bool :=
  map (fun x => cell_ne x s) col.

(** Element-wise [m1 | m2]. *)
Definition mask_or (m1 m2 : list bool) : list bool :=
  map (fun p => orb (fst p) (snd p)) (combine m1 m2).

(** [df[mask]]: the rows whose mask entry is [True]. *)
Fixpoint boolean_index {T : Type} (df : list T) (mask : list bool) : list T :=
  match df, mask with
  | r :: df', b :: mask' =>
      if b then r :: boolean_index df' mask' else boolean_index df' mask'
  | _, _ => []
  end.

(** [df.shape[0]]. *)
Definition shape0 {T : Type} (df : list T) : Z := Z.of_nat (length df).

(** ** Cell 1.1: churn distribution *)

(** [x * k] for a float and an integer constant, as the exact product: like
    the quotient, the product is not rounded to binary64 here, so only order
    bounds on it are meant to carry over to the printed value. *)
Definition float_mul_Z (x : float64) (k : Z) : float64 :=
  match x with
  | Finite q => Finite (Qred (q * inject_Z k))
  | PosInf => if k =? 0 then NaN else if 0 <? k then PosInf else NegInf
  | NegInf => if k =? 0 then NaN else if 0 <? k then NegInf else PosInf
  | NaN => NaN
  end.

(** [Series.value_counts()]: a series indexed by the observed labels (missing
    cells are not counted).  The series is kept as a map from label to count;
    the order in which pandas prints it is not modelled. *)
Definition value_counts (col : list (option string)) : gmap string Z :=
  fold_right (fun x m => match x with
                         | Some s => <[s := default 0 (m !! s) + 1]> m
                         | None => m
                         end) ∅ col.

Definition churn_counts (csv : list customer) : gmap string Z :=
  value_counts (map Churn csv).

(** [churn_counts / df.shape[0] * 100]. *)
Definition churn_percentage (csv : list customer) : gmap string float64 :=
  (fun c => float_mul_Z (truediv c (shape0 csv)) 100) <$> churn_counts csv.

(** ** Cell 2: derived columns *)

(** The dict handed to [Series.map]. *)
Definition churn_dict : gmap string Z := <["Yes" := 1]> (<["No" := 0]> ∅).

(** [Series.map(dict)] on one cell: a key that is missing from the dict, and
    a missing cell, both give NaN. *)
Definition map_dict (d : gmap string Z) (x : option string) : option Z :=
  match x with
  | Some s => d !! s
  | None => None
  end.

(** [pd.to_timedelta(_, unit='M')]: in the pandas releases that accept this
    unit, one 'M' is a twelfth of the mean Gregorian year, 30 days 10:29:06,
    counted here in seconds. *)
Definition seconds_per_M : Z := 2629746.

(** [pd.to_datetime('2020-02-01')] in seconds since 1970-01-01. *)
Definition reference_date : Z := 1580515200.

(** Proleptic Gregorian (year, month) of a day number counted from
    1970-01-01. *)
Definition year_month_of_days (days : Z) : Z * Z :=
  let z := days + 719468 in
  let era := z / 146097 in
  let doe := z - era * 146097 in
  let yoe := (doe - doe / 1460 + doe / 36524 - doe / 146096) / 365 in
  let doy := doe - (365 * yoe + yoe / 4 - yoe / 100) in
  let mp := (5 * doy + 2) / 153 in
  let m := if mp <? 10 then mp + 3 else mp - 9 in
  let y := yoe + era * 400 + (if m <=? 2 then 1 else 0) in
  (y, m).

(** [.dt.to_period('M')]: a monthly period is stored as its ordinal, the
    number of months since 1970-01. *)
Definition to_period_M (seconds : Z) : Z :=
  let '(y, m) := year_month_of_days (seconds / 86400) in
  (y - 1970) * 12 + (m - 1).

(** [reference_date - pd.to_timedelta(tenure, unit='M')].  The subtraction is
    in [Z]: pandas holds the timedelta as int64 nanoseconds and raises beyond
    that range, which is not modelled; statements that depend on the month
    values carry [tenure_in_range] as a hypothesis. *)
Definition signup_date_of (t : option Z) : option Z :=
  match t with
  | Some n => Some (reference_date - n * seconds_per_M)
  | None => None
  end.

(** A row of [df] once cell 2 has appended its columns. *)
Record row := {
  base : customer;
  Churn_flag : option Z;
  signup_date : option Z;
  signup_month : option Z
}.

Definition add_columns (c : customer) : row :=
  let sd := signup_date_of (tenure c) in
  {| base := c;
     Churn_flag := map_dict churn_dict (Churn c);
     signup_date := sd;
     signup_month := option_map to_period_M sd |}.

(** [df] as the later cells see it. *)
Definition load (csv : list customer) : list row := map add_columns csv.

(** Element-wise [series == v] on a numeric column: NaN equals nothing. *)
Definition num_eq (x : option Z) (v : Z) : bool :=
  match x with
  | Some z => z =? v
  | None => false
  end.

(** ** Cell 2: cohort aggregation *)

(** Sorted insertion without duplicates: [groupby] reports each observed key
    once, in increasing order. *)
Fixpoint insert_key (k : Z) (ks : list Z) : list Z :=
  match ks with
  | [] => [k]
  | x :: ks' =>
      if k <? x then k :: ks
      else if k =? x then ks
      else x :: insert_key k ks'
  end.

(** The group keys of a column; rows whose key is missing belong to no
    group ([dropna=True]). *)
Definition group_keys (col : list (option Z)) : list Z :=
  fold_right (fun x ks => match x with
                          | Some k => insert_key k ks
                          | None => ks
                          end) [] col.

Definition notna {T : Type} (x : option T) : bool :=
  match x with Some _ => true | None => false end.

(** The ['count'] aggregation: number of non-missing cells. *)
Definition agg_count {T : Type} (col : list (option T)) : Z :=
  Z.of_nat (length (List.filter notna col)).

(** [mask.sum()]: number of [True] entries. *)
Definition sum_mask (m : list bool) : Z :=
  fold_right (fun (b : bool) acc => (if b then 1 else 0) + acc) 0 m.

(** The ['sum'] aggregation, which skips NaN (and is 0 on an all-NaN group). *)
Definition agg_sum (col : list (option Z)) : Z :=
  fold_right (fun x acc => match x with
                           | Some z => z + acc
                           | None => acc
                           end) 0 col.

Definition cohort_group (df : list row) (k : Z) : list row :=
  List.filter (fun r => num_eq (signup_month r) k) df.

Record cohort_row := {
  cohort_signup_month : Z;
  total_customers : Z;
  retained : Z;
  retention_rate : float64
}.

Definition cohort_agg (df : list row) (k : Z) : cohort_row :=
  let g := cohort_group df k in
  let t := agg_count (map (fun r => customerID (base r)) g) in
  let kept := sum_mask (map (fun r => num_eq (Churn_flag r) 0) g) in
  {| cohort_signup_month := k;
     total_customers := t;
     retained := kept;
     retention_rate := truediv kept t |}.

Definition cohort_data (df : list row) : list cohort_row :=
  map (cohort_agg df) (group_keys (map signup_month df)).

(** Number of churned records of a cohort ([Churn_flag == 1]); the notebook
    does not report it, the statements about cohorts refer to it. *)
Definition cohort_churned (df : list row) (k : Z) : Z :=
  sum_mask (map (fun r => num_eq (Churn_flag r) 1) (cohort_group df k)).

(** Number of records of a cohort whose label is not ['Yes']. *)
Definition cohort_not_churned (df : list row) (k : Z) : Z :=
  sum_mask (map (fun r => cell_ne (Churn (base r)) "Yes") (cohort_group df k)).

(** ** Cell 3: the funnel *)

Definition total_signed (df : list row) : Z := shape0 df.

Definition has_internet (df : list row) : Z :=
  shape0 (boolean_index df
            (series_ne (map (fun r => InternetService (base r)) df) "No")).

Definition streaming (df : list row) : Z :=
  shape0 (boolean_index df
            (mask_or
               (series_eq (map (fun r => StreamingTV (base r)) df) "Yes")
               (series_eq (map (fun r => StreamingMovies (base r)) df) "Yes"))).

Definition still_active (df : list row) : Z :=
  shape0 (boolean_index df (map (fun r => num_eq (Churn_flag r) 0) df)).

Record funnel_row := {
  Step : string;
  Count : Z;
  Conversion : float64
}.

Definition funnel (df : list row) : list funnel_row :=
  map (fun sc : string * Z =>
         {| Step := fst sc;
            Count := snd sc;
            Conversion := truediv (snd sc) (total_signed df) |})
      [ ("Signed Up"%string, total_signed df);
        ("Has Internet"%string, has_internet df);
        ("Uses Streaming"%string, streaming df);
        ("Still Active"%string, still_active df) ].

(** ** Cell 4: the simulated experiment *)

Inductive group := A | B.

Definition group_eqb (g h : group) : bool :=
  match g, h with
  | A, A | B, B => true
  | _, _ => false
  end.

(** A row of [mtm]: a row of [df] with its assigned group. *)
Record exp_row := {
  data : row;
  assigned : group
}.

Definition set_Churn_flag (v : option Z) (r : exp_row) : exp_row :=
  {| data := {| base := base (data r);
                Churn_flag := v;
                signup_date := signup_date (data r);
                signup_month := signup_month (data r) |};
     assigned := assigned r |}.

(** [df[df['Contract'] == 'Month-to-month']]. *)
Definition month_to_month (df : list row) : list row :=
  boolean_index df
    (series_eq (map (fun r => Contract (base r)) df) "Month-to-month").

(** [np.random.choice(['A', 'B'], size=n, replace=True)]: the first [n]
    draws of the stream. *)
Definition choice (rng : nat -> group) (size : nat) : list group :=
  map rng (seq 0 size).

(** [t['group'] = labels], positionally. *)
Definition set_group (t : list row) (labels : list group) : list exp_row :=
  map (fun p => {| data := fst p; assigned := snd p |}) (combine t labels).

Definition mtm (df : list row) (rng : nat -> group) : list exp_row :=
  let t := month_to_month df in
  set_group t (choice rng (length t)).

Definition group_rows (t : list exp_row) (g : group) : list exp_row :=
  List.filter (fun r => group_eqb (assigned r) g) t.

Record agg_row := {
  agg_group : group;
  total : Z;
  churned : Z;
  rate : float64
}.

(** [t.groupby('group')['Churn_flag'].agg(total='count', churned='sum')]
    followed by [res['rate'] = res['churned'] / res['total']]: one row per
    group that has at least one record, ['A'] before ['B']. *)
Definition agg_named (g : group) (col : list (option Z)) : agg_row :=
  {| agg_group := g;
     total := agg_count col;
     churned := agg_sum col;
     rate := truediv (agg_sum col) (agg_count col) |}.

Definition group_agg (t : list exp_row) (g : group) : list agg_row :=
  match group_rows t g with
  | [] => []
  | rows => [agg_named g (map (fun r => Churn_flag (data r)) rows)]
  end.

Definition groupby_agg (t : list exp_row) : list agg_row :=
  group_agg t A ++ group_agg t B.

(** The row reported for group [g], if any. *)
Definition agg_of (res : list agg_row) (g : group) : option agg_row :=
  List.find (fun r => group_eqb (agg_group r) g) res.

(** [t.loc[mask, 'Churn_flag'] = v]. *)
Definition loc_set_flag (t : list exp_row) (mask : list bool) (v : Z)
  : list exp_row :=
  map (fun p => if snd p : bool then set_Churn_flag (Some v) (fst p) else fst p)
      (combine t mask).

Definition treat (t : list exp_row) : list exp_row :=
  loc_set_flag t (map (fun r => group_eqb (assigned r) B) t) 0.

Definition grouped (df : list row) (rng : nat -> group) : list agg_row :=
  groupby_agg (mtm df rng).

Definition mtm_effect (df : list row) (rng : nat -> group) : list exp_row :=
  treat (mtm df rng).

Definition grouped_effect (df : list row) (rng : nat -> group)
  : list agg_row :=
  groupby_agg (mtm_effect df rng).

(** The reported size of group [g]: its [total], and 0 when the aggregation
    has no row for it. *)
Definition reported_total (res : list agg_row) (g : group) : Z :=
  match agg_of res g with
  | Some r => total r
  | None => 0
  end.

(** ** The experiment cells as programs over a store

    Python variables name objects; [DataFrame.copy()] and [groupby(...).agg]
    build a new object, while [t['group'] = ...] and [t.loc[...] = ...] write
    into the object the variable names. *)

Inductive obj :=
| Table (rows : list row)
| Frame (rows : list exp_row)
| Result (rows : list agg_row).

Record state := {
  env : gmap string positive;
  heap : gmap positive obj
}.

(** [x = <new object>]. *)
Definition new_var (x : string) (o : obj) (σ : state) : state :=
  let l := fresh (dom (heap σ)) in
  {| env := <[x := l]> (env σ); heap := <[l := o]> (heap σ) |}.

(** [y = x]: a second name for the same object. *)
Definition alias_var (y x : string) (σ : state) : option state :=
  l ← env σ !! x;
  Some {| env := <[y := l]> (env σ); heap := heap σ |}.

Definition deref (x : string) (σ : state) : option obj :=
  l ← env σ !! x; heap σ !! l.

(** In-place update of the object named [x]. *)
Definition write_var (x : string) (o : obj) (σ : state) : option state :=
  l ← env σ !! x;
  Some {| env := env σ; heap := <[l := o]> (heap σ) |}.

Definition get_table (x : string) (σ : state) : option (list row) :=
  o ← deref x σ;
  match o with Table t => Some t | _ => None end.

Definition get_frame (x : string) (σ : state) : option (list exp_row) :=
  o ← deref x σ;
  match o with Frame t => Some t | _ => None end.

Definition get_result (x : string) (σ : state) : option (list agg_row) :=
  o ← deref x σ;
  match o with Result t => Some t | _ => None end.

(** Cell "3a4cc029": [mtm], its [group] column and the baseline [grouped]. *)
Definition cell_baseline (rng : nat -> group) (σ : state) : option state :=
  d ← get_table "df" σ;
  let σ1 := new_var "mtm" (Table (month_to_month d)) σ in
  t ← get_table "mtm" σ1;
  σ2 ← write_var "mtm" (Frame (set_group t (choice rng (length t)))) σ1;
  m ← get_frame "mtm" σ2;
  Some (new_var "grouped" (Result (groupby_agg m)) σ2).

(** The treatment statements applied to the frame named [x]. *)
Definition apply_effect (x : string) (σ : state) : option state :=
  e ← get_frame x σ;
  σ' ← write_var x
         (Frame (loc_set_flag e (map (fun r => group_eqb (assigned r) B) e) 0))
         σ;
  e' ← get_frame x σ';
  Some (new_var "grouped_effect" (Result (groupby_agg e')) σ').

(** Cell "98031749": [mtm_effect = mtm.copy()], then the treatment. *)
Definition cell_effect (σ : state) : option state :=
  m ← get_frame "mtm" σ;
  apply_effect "mtm_effect" (new_var "mtm_effect" (Frame m) σ).

(** The same cell without [.copy()], for comparison. *)
Definition cell_effect_no_copy (σ : state) : option state :=
  σ1 ← alias_var "mtm_effect" "mtm" σ;
  apply_effect "mtm_effect" σ1.

Definition initial_state (df : list row) : state :=
  new_var "df" (Table df) {| env := ∅; heap := ∅ |}.

(** ** Row-level readings of the funnel predicates

    The funnel statements compare the counts of the notebook with the number
    of rows of the whole table that satisfy one predicate. *)

Definition has_internet_service (r : row) : Prop :=
  InternetService (base r) <> Some "No"%string.

Definition uses_streaming (r : row) : Prop :=
  StreamingTV (base r) = Some "Yes"%string \/
  StreamingMovies (base r) = Some "Yes"%string.

Definition is_active (r : row) : Prop := Churn_flag r = Some 0.

Definition number_of (P : row -> Prop) `{!forall r, Decision (P r)}
           (df : list row) : Z :=
  Z.of_nat (length (filter P df)).

(** A funnel that narrows: each step filters the rows kept by the previous
    one.  The notebook does not compute this; it is here for comparison. *)
Definition narrowing_counts (df : list row) : list Z :=
  let s2 := filter has_internet_service df in
  let s3 := filter uses_streaming s2 in
  let s4 := filter is_active s3 in
  [shape0 df; shape0 s2; shape0 s3; shape0 s4].

(** ** Sample tables *)

Definition customer_of (id : option string) (months : Z)
           (contract internet tv movies churn : string) : customer :=
  {| customerID := id;
     tenure := Some months;
     Contract := Some contract;
     InternetService := Some internet;
     StreamingTV := Some tv;
     StreamingMovies := Some movies;
     Churn := Some churn |}.

Definition cust_dsl_active : customer :=
  customer_of (Some "7590-VHVEG"%string) 1
              "Month-to-month" "DSL" "No" "No" "No".

Definition cust_fiber_churned : customer :=
  customer_of (Some "9237-HQITU"%string) 2
              "Month-to-month" "Fiber optic" "Yes" "No" "Yes".

Definition cust_no_id : customer :=
  customer_of None 1 "Month-to-month" "DSL" "No" "No" "No".

Definition cust_other_label : customer :=
  customer_of (Some "3668-QPYBK"%string) 1
              "Month-to-month" "DSL" "No" "No" "Maybe".

Definition cust_other_label_no_id : customer :=
  customer_of None 1 "Month-to-month" "DSL" "No" "No" "Maybe".

(** The two end-to-end scenarios of the specification. *)
Definition table_26_of_100 : list customer :=
  List.repeat cust_fiber_churned 26 ++ List.repeat cust_dsl_active 74.

Definition cohort_7_of_10 : list customer :=
  List.repeat cust_dsl_active 7 ++
  List.repeat (customer_of (Some "9305-CDSKC"%string) 1
                           "Month-to-month" "Fiber optic" "Yes" "Yes" "Yes") 3.

Definition all_A : nat -> group := fun _ => A.

Definition alternate : nat -> group :=
  fun i => if Nat.even i then A else B.

(** ** Further quantities the statements refer to *)

(** Number of cells of a column that are equal to [s]. *)
Definition occurrences (s : string) (col : list (option string)) : Z :=
  sum_mask (series_eq col s).

(** The counts of a series added up. *)
Definition series_sum (m : gmap string Z) : Z :=
  map_fold (fun _ v acc => v + acc) 0 m.

(** The pieces of [year_month_of_days] as functions of the day of the
    400-year era: year of the era, day of the year counted from 1 March, and
    month counted from March. *)
Definition yoe_of (doe : Z) : Z :=
  (doe - doe / 1460 + doe / 36524 - doe / 146096) / 365.

Definition doy_of (doe : Z) : Z :=
  doe - (365 * yoe_of doe + yoe_of doe / 4 - yoe_of doe / 100).

Definition mp_of (doe : Z) : Z := (5 * doy_of doe + 2) / 153.

(** The signup month of a record whose tenure is [t]. *)
Definition signup_month_of_tenure (t : Z) : Z :=
  to_period_M (reference_date - t * seconds_per_M).

(** The non-negative tenures whose timedelta fits pandas' int64 nanoseconds:
    [3507 * 2629746 * 10^9 <= 2^63 - 1 < 3508 * 2629746 * 10^9]; the signup
    date of such a tenure is within the range of pandas' timestamps. *)
Definition tenure_in_range (t : Z) : Prop := 0 <= t <= 3507.

(** A column of integers added up. *)
Definition sum_Z (l : list Z) : Z := fold_right Z.add 0 l.

(** The record has a signup month, that is a tenure. *)
Definition has_signup_month (r : row) : bool := notna (signup_month r).

(** Row-level readings of the single conditions of the funnel. *)
Definition no_internet_service (r : row) : Prop :=
  InternetService (base r) = Some "No"%string.

Definition streams_tv (r : row) : Prop :=
  StreamingTV (base r) = Some "Yes"%string.

Definition streams_movies (r : row) : Prop :=
  StreamingMovies (base r) = Some "Yes"%string.

(** The reported churned count of group [g], and 0 when the aggregation has
    no row for it. *)
Definition reported_churned (res : list agg_row) (g : group) : Z :=
  match agg_of res g with
  | Some r => churned r
  | None => 0
  end.

(** The values a derived churn flag can take. *)
Definition binary_flag (x : option Z) : Prop :=
  x = None \/ x = Some 0 \/ x = Some 1.

(** A row of an aggregation whose churned count is within its total and
    whose rate is NaN over a total of 0 and within [0, 1] otherwise. *)
Definition rate_well_formed (r : agg_row) : Prop :=
  0 <= churned r <= total r /\
  ((total r = 0 /\ rate r = NaN) \/
   (0 < total r /\ in_unit_interval (rate r))).

(** * Properties *)

(** ** Sample runs *)

Section SampleRuns.

(** Tenures 0, 1 and 72 fall in 2020-02, 2020-01 and 2014-01. *)
Example signup_month_samples :
  map (fun t => option_map year_month_of_days
                  (option_map (fun s => s / 86400) (signup_date_of (Some t))))
      [0; 1; 72]
  = [Some (2020, 2); Some (2020, 1); Some (2014, 1)].
Proof. vm_compute. reflexivity. Qed.

Example churn_percentage_26_of_100 :
  churn_percentage table_26_of_100 !! "Yes"%string = Some (Finite 26) /\
  churn_percentage table_26_of_100 !! "No"%string = Some (Finite 74).
Proof. split; vm_compute; reflexivity. Qed.

Example retention_rate_7_of_10 :
  cohort_data (load cohort_7_of_10) =
    [ {| cohort_signup_month := 600;
         total_customers := 10;
         retained := 7;
         retention_rate := Finite (7 # 10) |} ].
Proof. vm_compute. reflexivity. Qed.

Example funnel_sample :
  funnel (load [cust_dsl_active; cust_fiber_churned; cust_other_label]) =
    [ {| Step := "Signed Up"; Count := 3; Conversion := Finite 1 |};
      {| Step := "Has Internet"; Count := 3; Conversion := Finite 1 |};
      {| Step := "Uses Streaming"; Count := 1; Conversion := Finite (1 # 3) |};
      {| Step := "Still Active"; Count := 1; Conversion := Finite (1 # 3) |} ].
Proof. vm_compute. reflexivity. Qed.

Example grouped_sample :
  grouped (load [cust_dsl_active; cust_fiber_churned; cust_fiber_churned])
          alternate =
    [ {| agg_group := A; total := 2; churned := 1; rate := Finite (1 # 2) |};
      {| agg_group := B; total := 1; churned := 1; rate := Finite 1 |} ] /\
  grouped_effect
    (load [cust_dsl_active; cust_fiber_churned; cust_fiber_churned])
    alternate =
    [ {| agg_group := A; total := 2; churned := 1; rate := Finite (1 # 2) |};
      {| agg_group := B; total := 1; churned := 0; rate := Finite 0 |} ].
Proof. split; vm_compute; reflexivity. Qed.

End SampleRuns.

(** ** Float division *)

Section Truediv.

Lemma truediv_nonzero (n d : Z) :
  d <> 0 -> truediv n d = Finite (Qred (inject_Z n / inject_Z d)).
Proof.
  intros Hd. unfold truediv.
  destruct (Z.eqb_spec d 0) as [->|_]; [contradiction | reflexivity].
Qed.

Lemma truediv_zero_denominator (n : Z) :
  0 <= n -> truediv n 0 = if n =? 0 then NaN else PosInf.
Proof.
  intros Hn. unfold truediv. cbn [Z.eqb].
  destruct (Z.eqb_spec n 0) as [->|Hne]; [reflexivity|].
  destruct (Z.ltb_spec 0 n); [reflexivity | lia].
Qed.

Lemma inject_Z_pos (d : Z) : 0 < d -> (0 < inject_Z d)%Q.
Proof. intros Hd. change 0%Q with (inject_Z 0). now rewrite <- Zlt_Qlt. Qed.

Lemma truediv_unit (n d : Z) :
  0 <= n <= d -> 0 < d -> in_unit_interval (truediv n d).
Proof.
  intros [Hn Hnd] Hd. rewrite truediv_nonzero by lia. cbn.
  rewrite Qred_correct. pose proof (inject_Z_pos d Hd) as Hq. split.
  - apply Qle_shift_div_l; [exact Hq|].
    rewrite Qmult_0_l. change 0%Q with (inject_Z 0). now rewrite <- Zle_Qle.
  - apply Qle_shift_div_r; [exact Hq|].
    rewrite Qmult_1_l. now rewrite <- Zle_Qle.
Qed.

Lemma truediv_self (n : Z) : 0 < n -> truediv n n = Finite 1.
Proof.
  intros Hn. rewrite truediv_nonzero by lia. f_equal.
  change 1%Q with (Qred 1). apply Qred_complete.
  apply Qmult_inv_r. intros Heq.
  pose proof (inject_Z_pos n Hn) as Hq. rewrite Heq in Hq.
  now apply Qlt_irrefl in Hq.
Qed.

Lemma truediv_zero_numerator (d : Z) : d <> 0 -> truediv 0 d = Finite 0.
Proof.
  intros Hd. rewrite truediv_nonzero by exact Hd.
  replace (Qred (inject_Z 0 / inject_Z d)) with (Qred 0); [reflexivity|].
  apply Qred_complete. unfold Qdiv. now rewrite Qmult_0_l.
Qed.

Lemma truediv_lt (n m d : Z) :
  n < m -> 0 < d -> float_lt (truediv n d) (truediv m d).
Proof.
  intros Hnm Hd. rewrite !truediv_nonzero by lia. cbn.
  rewrite !Qred_correct. pose proof (inject_Z_pos d Hd) as Hq.
  apply Qlt_shift_div_l; [exact Hq|].
  unfold Qdiv. rewrite <- Qmult_assoc, (Qmult_comm (/ _)), Qmult_inv_r.
  - rewrite Qmult_1_r. now rewrite <- Zlt_Qlt.
  - intros Heq. rewrite Heq in Hq. now apply Qlt_irrefl in Hq.
Qed.

End Truediv.

(** ** Boolean indexing and counting *)

Section Indexing.

Context {T : Type}.

Lemma boolean_index_map (p : T -> bool) (df : list T) :
  boolean_index df (map p df) = List.filter p df.
Proof.
  induction df as [|r df IH]; cbn; [reflexivity|].
  destruct (p r); now rewrite IH.
Qed.

Lemma boolean_index_length (df : list T) (mask : list bool) :
  (length (boolean_index df mask) <= length df)%nat.
Proof.
  revert mask. induction df as [|r df IH]; intros [|b mask]; cbn; try lia.
  specialize (IH mask). destruct b; cbn; lia.
Qed.

Lemma shape0_boolean_index (df : list T) (mask : list bool) :
  0 <= shape0 (boolean_index df mask) <= shape0 df.
Proof.
  unfold shape0. pose proof (boolean_index_length df mask). lia.
Qed.

(** A mask computed row by row selects exactly the rows that satisfy the
    corresponding proposition. *)
Lemma boolean_index_filter (P : T -> Prop) `{!forall r, Decision (P r)}
      (p : T -> bool) (df : list T) :
  (forall r, p r = true <-> P r) ->
  boolean_index df (map p df) = filter P df.
Proof.
  intros Hp. induction df as [|r df IH]; [reflexivity|].
  rewrite filter_cons. cbn [map boolean_index]. destruct (p r) eqn:E.
  - rewrite decide_True by now apply Hp. now rewrite IH.
  - rewrite decide_False; [exact IH|].
    intros HP. apply Hp in HP. congruence.
Qed.

End Indexing.

(** ** Cell 3: the funnel *)

Section Funnel.

Lemma cell_eq_true (x : option string) (s : string) :
  cell_eq x s = true <-> x = Some s.
Proof.
  destruct x as [v|]; cbn.
  - rewrite String.eqb_eq. split; congruence.
  - split; discriminate.
Qed.

Lemma cell_ne_true (x : option string) (s : string) :
  cell_ne x s = true <-> x <> Some s.
Proof.
  unfold cell_ne. rewrite negb_true_iff, <- not_true_iff_false.
  now rewrite cell_eq_true.
Qed.

Lemma num_eq_true (x : option Z) (v : Z) :
  num_eq x v = true <-> x = Some v.
Proof.
  destruct x as [z|]; cbn.
  - rewrite Z.eqb_eq. split; congruence.
  - split; discriminate.
Qed.

Lemma mask_or_map {T : Type} (f g : T -> bool) (l : list T) :
  mask_or (map f l) (map g l) = map (fun x => f x || g x) l.
Proof.
  unfold mask_or. induction l as [|x l IH]; cbn; [reflexivity|].
  now rewrite IH.
Qed.

Lemma has_internet_number (df : list row) :
  has_internet df = number_of has_internet_service df.
Proof.
  unfold has_internet, number_of, series_ne, shape0. rewrite map_map.
  rewrite (boolean_index_filter has_internet_service); [reflexivity|].
  intros r. apply cell_ne_true.
Qed.

Lemma streaming_number (df : list row) :
  streaming df = number_of uses_streaming df.
Proof.
  unfold streaming, number_of, series_eq, shape0.
  rewrite !map_map, mask_or_map.
  rewrite (boolean_index_filter uses_streaming); [reflexivity|].
  intros r. unfold uses_streaming.
  now rewrite orb_true_iff, !cell_eq_true.
Qed.

Lemma still_active_number (df : list row) :
  still_active df = number_of is_active df.
Proof.
  unfold still_active, number_of, shape0.
  rewrite (boolean_index_filter is_active); [reflexivity|].
  intros r. apply num_eq_true.
Qed.

Lemma total_signed_number (df : list row) :
  total_signed df = number_of (fun _ => True) df.
Proof.
  unfold total_signed, number_of, shape0. do 2 f_equal.
  induction df as [|r df IH]; [reflexivity|].
  rewrite filter_cons. cbn. now rewrite <- IH.
Qed.

(** C4. Each of the four counts of the funnel is the number of rows of the
    whole table that satisfy that step's predicate alone: every row for
    'Signed Up', [InternetService != 'No'], [StreamingTV == 'Yes' or
    StreamingMovies == 'Yes'], and [Churn_flag == 0]. *)
Theorem funnel_counts_full_population (df : list row) :
  map Count (funnel df) =
    [ number_of (fun _ => True) df;
      number_of has_internet_service df;
      number_of uses_streaming df;
      number_of is_active df ].
Proof.
  cbn. rewrite <- total_signed_number, <- has_internet_number,
    <- streaming_number, <- still_active_number. reflexivity.
Qed.

(** The counts are not those of a narrowing funnel: a customer with
    internet service who streams nothing and is still active is counted at
    the last step although the third step has dropped every row. *)
Example funnel_is_not_narrowing :
  map Count (funnel (load [cust_dsl_active])) = [1; 1; 0; 1] /\
  narrowing_counts (load [cust_dsl_active]) = [1; 1; 0; 0].
Proof. split; vm_compute; reflexivity. Qed.

Lemma funnel_counts_bounded (df : list row) :
  Forall (fun f => 0 <= Count f <= total_signed df) (funnel df).
Proof.
  unfold funnel, has_internet, streaming, still_active, total_signed.
  repeat constructor; cbn;
    first [ apply shape0_boolean_index | unfold shape0; lia ].
Qed.

(** C3 (amended). The funnel has four steps and, for every table, each
    satisfies [0 <= Count <= total_signed]; on a table with at least one row
    each step also satisfies [0 <= Conversion <= 1]. *)
Theorem funnel_bounds (df : list row) :
  length (funnel df) = 4%nat /\
  Forall (fun f => 0 <= Count f <= total_signed df) (funnel df) /\
  (df <> [] -> Forall (fun f => in_unit_interval (Conversion f)) (funnel df)).
Proof.
  split; [reflexivity|]. pose proof (funnel_counts_bounded df) as Hb.
  split; [exact Hb|]. intros Hne.
  assert (Hpos : 0 < total_signed df).
  { unfold total_signed, shape0. destruct df; [contradiction | cbn; lia]. }
  assert (Hconv : Forall (fun f => Conversion f =
                                   truediv (Count f) (total_signed df))
                         (funnel df)).
  { unfold funnel. repeat constructor. }
  rewrite List.Forall_forall in *. intros f Hf.
  rewrite (Hconv f Hf). apply truediv_unit; [now apply Hb | exact Hpos].
Qed.

Lemma funnel_bounds_witness :
  load [cust_dsl_active; cust_fiber_churned] <> [] /\
  Forall (fun f => in_unit_interval (Conversion f))
         (funnel (load [cust_dsl_active; cust_fiber_churned])).
Proof.
  assert (H : load [cust_dsl_active; cust_fiber_churned] <> [])
    by discriminate.
  split; [exact H|].
  exact (proj2 (proj2 (funnel_bounds
                         (load [cust_dsl_active; cust_fiber_churned]))) H).
Defined.

(** C3, as stated, fails on the table without rows: every Conversion is
    [0 / 0], which is NaN and so not within [0, 1]. *)
Lemma funnel_bounds_empty_table_counterexample :
  map Conversion (funnel (load [])) = [NaN; NaN; NaN; NaN] /\
  ~ Forall (fun f => in_unit_interval (Conversion f) /\
                     Count f <= total_signed (load []))
           (funnel (load [])).
Proof.
  assert (E : funnel (load []) =
              map (fun s => {| Step := s; Count := 0; Conversion := NaN |})
                  ["Signed Up"; "Has Internet"; "Uses Streaming";
                   "Still Active"]%string)
    by (vm_compute; reflexivity).
  rewrite E. split; [reflexivity|].
  intros H. inversion H as [|f fs [Hf _] _]; subst. exact Hf.
Qed.

(** C10. On a table with at least one row, the first step is 'Signed Up',
    its Count is the number of rows and its Conversion is exactly 1. *)
Theorem signed_up_conversion_one (df : list row) :
  df <> [] ->
  head (funnel df) =
    Some {| Step := "Signed Up";
            Count := Z.of_nat (length df);
            Conversion := Finite 1 |}.
Proof.
  intros Hne. cbn [funnel map head fst snd]. unfold total_signed, shape0.
  rewrite truediv_self; [reflexivity|].
  destruct df; [contradiction | cbn [length]; lia].
Qed.

Lemma signed_up_conversion_one_witness :
  load [cust_dsl_active; cust_fiber_churned] <> [] /\
  head (funnel (load [cust_dsl_active; cust_fiber_churned])) =
    Some {| Step := "Signed Up";
            Count := Z.of_nat
                       (length (load [cust_dsl_active; cust_fiber_churned]));
            Conversion := Finite 1 |}.
Proof.
  split; [discriminate|].
  apply (signed_up_conversion_one
           (load [cust_dsl_active; cust_fiber_churned])).
  discriminate.
Defined.

End Funnel.

(** ** Cell 2: cohorts *)

Section Cohort.

Lemma insert_key_In (k x : Z) (ks : list Z) :
  In x (insert_key k ks) <-> x = k \/ In x ks.
Proof.
  induction ks as [|y ks IH]; cbn; [intuition|].
  destruct (k <? y); [cbn; intuition|].
  destruct (Z.eqb_spec k y) as [->|Hne]; cbn; [intuition|].
  rewrite IH. intuition.
Qed.

Lemma group_keys_In (k : Z) (col : list (option Z)) :
  In k (group_keys col) <-> In (Some k) col.
Proof.
  induction col as [|x col IH]; cbn; [reflexivity|].
  destruct x as [j|]; rewrite ?insert_key_In, IH; intuition congruence.
Qed.

Lemma cohort_group_In (df : list row) (k : Z) (r : row) :
  In r (cohort_group df k) <-> In r df /\ signup_month r = Some k.
Proof. unfold cohort_group. now rewrite List.filter_In, num_eq_true. Qed.

(** Every key reported by the group-by has at least one row. *)
Lemma cohort_group_observed (df : list row) (k : Z) :
  In k (group_keys (map signup_month df)) ->
  exists r, In r (cohort_group df k).
Proof.
  rewrite group_keys_In, in_map_iff. intros [r [Hk Hr]].
  exists r. now apply cohort_group_In.
Qed.

Lemma sum_mask_cons (b : bool) (m : list bool) :
  sum_mask (b :: m) = (if b then 1 else 0) + sum_mask m.
Proof. reflexivity. Qed.

Lemma sum_mask_bounds (m : list bool) :
  0 <= sum_mask m <= Z.of_nat (length m).
Proof.
  induction m as [|b m IH]; [cbn; lia|].
  rewrite sum_mask_cons. cbn [length]. destruct b; lia.
Qed.

Lemma agg_count_bounds {T : Type} (col : list (option T)) :
  0 <= agg_count col <= Z.of_nat (length col).
Proof.
  unfold agg_count. induction col as [|[x|] col IH]; cbn in *; lia.
Qed.

Lemma agg_count_no_missing {T : Type} (col : list (option T)) :
  (forall x, In x col -> x <> None) ->
  agg_count col = Z.of_nat (length col).
Proof.
  unfold agg_count. induction col as [|[x|] col IH]; intros Hcol.
  - reflexivity.
  - cbn. rewrite Nat2Z.inj_succ, IH; [lia|]. intros y Hy. apply Hcol. now right.
  - exfalso. apply (Hcol None); [now left | reflexivity].
Qed.

(** Two masks that are never both true select, together, at most every row;
    fewer when some row is selected by neither. *)
Lemma sum_mask_disjoint {T : Type} (p q : T -> bool) (l : list T) :
  (forall x, p x && q x = false) ->
  sum_mask (map p l) + sum_mask (map q l) <= Z.of_nat (length l).
Proof.
  intros Hpq. induction l as [|x l IH]; [cbn; lia|].
  cbn [map length]. rewrite !sum_mask_cons. specialize (Hpq x).
  destruct (p x), (q x); try discriminate; lia.
Qed.

Lemma sum_mask_disjoint_strict {T : Type} (p q : T -> bool) (l : list T)
      (x : T) :
  (forall y, p y && q y = false) ->
  In x l -> p x = false -> q x = false ->
  sum_mask (map p l) + sum_mask (map q l) < Z.of_nat (length l).
Proof.
  intros Hpq Hin Hp Hq. induction l as [|y l IH]; [destruct Hin|].
  cbn [map length]. rewrite !sum_mask_cons. destruct Hin as [->|Hin].
  - rewrite Hp, Hq. pose proof (sum_mask_disjoint p q l Hpq). lia.
  - specialize (IH Hin). specialize (Hpq y).
    destruct (p y), (q y); try discriminate; lia.
Qed.

Lemma sum_mask_monotone_strict {T : Type} (p q : T -> bool) (l : list T)
      (x : T) :
  (forall y, In y l -> p y = true -> q y = true) ->
  In x l -> p x = false -> q x = true ->
  sum_mask (map p l) < sum_mask (map q l).
Proof.
  intros Hpq Hin Hp Hq.
  assert (Hle : forall l', (forall y, In y l' -> p y = true -> q y = true) ->
                           sum_mask (map p l') <= sum_mask (map q l')).
  { induction l' as [|y l' IH]; intros H; [cbn; lia|].
    cbn [map]. rewrite !sum_mask_cons.
    assert (IH' := IH (fun z Hz => H z (or_intror Hz))).
    pose proof (H y (or_introl eq_refl)) as Hy.
    destruct (p y), (q y); first [lia | discriminate (Hy eq_refl)]. }
  induction l as [|y l IH]; [destruct Hin|].
  cbn [map]. rewrite !sum_mask_cons. destruct Hin as [->|Hin].
  - rewrite Hp, Hq.
    pose proof (Hle l (fun z Hz => Hpq z (or_intror Hz))). lia.
  - assert (IH' := IH (fun z Hz => Hpq z (or_intror Hz)) Hin).
    pose proof (Hpq y (or_introl eq_refl)) as Hy.
    destruct (p y), (q y); first [lia | discriminate (Hy eq_refl)].
Qed.

(** The flag derived from a label. *)
Lemma map_dict_churn (s : string) :
  map_dict churn_dict (Some s) =
    if String.eqb s "Yes" then Some 1
    else if String.eqb s "No" then Some 0 else None.
Proof.
  unfold map_dict, churn_dict.
  destruct (String.eqb_spec s "Yes") as [->|Hy]; [reflexivity|].
  rewrite lookup_insert_ne by congruence.
  destruct (String.eqb_spec s "No") as [->|Hn]; [reflexivity|].
  rewrite lookup_insert_ne by congruence. apply lookup_empty.
Qed.

Lemma Churn_flag_one (c : customer) :
  Churn_flag (add_columns c) = Some 1 <-> Churn c = Some "Yes"%string.
Proof.
  cbn. destruct (Churn c) as [s|]; [|split; discriminate].
  rewrite map_dict_churn.
  destruct (String.eqb_spec s "Yes") as [->|Hy]; [tauto|].
  destruct (String.eqb_spec s "No"); split; congruence.
Qed.

Lemma Churn_flag_zero (c : customer) :
  Churn_flag (add_columns c) = Some 0 <-> Churn c = Some "No"%string.
Proof.
  cbn. destruct (Churn c) as [s|]; [|split; discriminate].
  rewrite map_dict_churn.
  destruct (String.eqb_spec s "Yes") as [->|Hy]; [split; discriminate|].
  destruct (String.eqb_spec s "No") as [->|Hn]; split; congruence.
Qed.

Lemma Churn_flag_other (c : customer) :
  Churn c <> Some "Yes"%string -> Churn c <> Some "No"%string ->
  Churn_flag (add_columns c) = None.
Proof.
  intros Hy Hn. cbn. destruct (Churn c) as [s|]; [|reflexivity].
  rewrite map_dict_churn.
  destruct (String.eqb_spec s "Yes") as [->|_]; [contradiction|].
  destruct (String.eqb_spec s "No") as [->|_]; [contradiction|reflexivity].
Qed.

(** C2 (amended). When no record lacks its customerID, every cohort reported
    by the group-by has [total_customers > 0], [0 <= retained <=
    total_customers] and [0 <= retention_rate <= 1]; no cohort without
    customers is reported, so no rate is a division by zero. *)
Theorem cohort_retention_bounds (df : list row) :
  (forall r, In r df -> customerID (base r) <> None) ->
  Forall (fun c => 0 < total_customers c /\
                   0 <= retained c <= total_customers c /\
                   in_unit_interval (retention_rate c))
         (cohort_data df).
Proof.
  intros Hid. unfold cohort_data. rewrite List.Forall_map.
  apply List.Forall_forall. intros k Hk.
  destruct (cohort_group_observed df k Hk) as [r Hr].
  cbn [cohort_agg total_customers retained retention_rate].
  set (g := cohort_group df k) in *.
  assert (Htot : agg_count (map (fun r => customerID (base r)) g)
                 = Z.of_nat (length g)).
  { rewrite agg_count_no_missing, length_map; [reflexivity|].
    intros x Hx. apply in_map_iff in Hx as [r' [<- Hr']].
    apply Hid. now apply (cohort_group_In df k r'). }
  rewrite Htot.
  pose proof (sum_mask_bounds (map (fun r => num_eq (Churn_flag r) 0) g)) as Hb.
  rewrite length_map in Hb.
  assert (Hpos : 0 < Z.of_nat (length g)).
  { destruct g; [destruct Hr | cbn; lia]. }
  repeat split; try lia. apply truediv_unit; lia.
Qed.

Lemma cohort_retention_bounds_witness :
  (forall r, In r (load [cust_dsl_active; cust_fiber_churned]) ->
             customerID (base r) <> None) /\
  Forall (fun c => 0 < total_customers c /\
                   0 <= retained c <= total_customers c /\
                   in_unit_interval (retention_rate c))
         (cohort_data (load [cust_dsl_active; cust_fiber_churned])).
Proof.
  assert (H : forall r, In r (load [cust_dsl_active; cust_fiber_churned]) ->
                        customerID (base r) <> None).
  { intros r [<-|[<-|[]]]; discriminate. }
  split; [exact H|].
  exact (cohort_retention_bounds (load [cust_dsl_active; cust_fiber_churned]) H).
Defined.

(** C2, as stated, fails when a record has no customerID: the cohort counts
    one customer, two retained records and a rate of 2. *)
Lemma cohort_retention_missing_id_counterexample :
  cohort_data (load [cust_dsl_active; cust_no_id]) =
    [ {| cohort_signup_month := 600;
         total_customers := 1;
         retained := 2;
         retention_rate := Finite 2 |} ] /\
  ~ Forall (fun c => total_customers c > 0 ->
                     in_unit_interval (retention_rate c) /\
                     retained c <= total_customers c)
           (cohort_data (load [cust_dsl_active; cust_no_id])).
Proof.
  assert (E : cohort_data (load [cust_dsl_active; cust_no_id]) =
              [ {| cohort_signup_month := 600;
                   total_customers := 1;
                   retained := 2;
                   retention_rate := Finite 2 |} ])
    by (vm_compute; reflexivity).
  rewrite E. split; [reflexivity|].
  intros H. inversion H as [|c cs Hc _]; subst. cbn in Hc.
  destruct Hc as [_ Hle]; lia.
Qed.

End Cohort.

(** ** Labels other than 'Yes' and 'No' *)

Section OtherLabels.

Lemma num_eq_zero_one (x : option Z) : num_eq x 0 && num_eq x 1 = false.
Proof.
  destruct x as [z|]; [cbn|reflexivity].
  destruct (Z.eqb_spec z 0) as [->|_]; reflexivity.
Qed.

Lemma load_In (csv : list customer) (r : row) :
  In r (load csv) <-> exists c, r = add_columns c /\ In c csv.
Proof.
  unfold load. rewrite in_map_iff.
  split; intros [c [H1 H2]]; exists c; split; congruence.
Qed.

(** C9 (amended). The flag is 1 exactly for the label 'Yes' and 0 exactly for
    'No'.  A record with any other label has a null flag; when the records of
    its cohort all carry a customerID, it is counted in [total_customers]
    (which is then the size of the cohort) and neither as retained nor as
    churned, so [retained + churned < total_customers], and the
    [retention_rate] is strictly below the fraction of the cohort's records
    that are not labelled 'Yes'. *)
Theorem other_label_undercounts
        (csv : list customer) (c : customer) (s : string) (k : Z) :
  In c csv ->
  Churn c = Some s -> s <> "Yes"%string -> s <> "No"%string ->
  signup_month (add_columns c) = Some k ->
  (forall r, In r (cohort_group (load csv) k) -> customerID (base r) <> None) ->
  (forall c', Churn_flag (add_columns c') = Some 1
              <-> Churn c' = Some "Yes"%string) /\
  (forall c', Churn_flag (add_columns c') = Some 0
              <-> Churn c' = Some "No"%string) /\
  Churn_flag (add_columns c) = None /\
  In (cohort_agg (load csv) k) (cohort_data (load csv)) /\
  total_customers (cohort_agg (load csv) k)
    = shape0 (cohort_group (load csv) k) /\
  retained (cohort_agg (load csv) k) + cohort_churned (load csv) k
    < total_customers (cohort_agg (load csv) k) /\
  float_lt (retention_rate (cohort_agg (load csv) k))
           (truediv (cohort_not_churned (load csv) k)
                    (total_customers (cohort_agg (load csv) k))).
Proof.
  intros Hc Hs Hy Hn Hk Hid.
  split; [exact Churn_flag_one|]. split; [exact Churn_flag_zero|].
  assert (Hflag : Churn_flag (add_columns c) = None).
  { apply Churn_flag_other; rewrite Hs; congruence. }
  set (df := load csv) in *. set (g := cohort_group df k) in *.
  assert (Hr0 : In (add_columns c) g).
  { apply cohort_group_In. split; [|exact Hk].
    apply load_In. now exists c. }
  assert (Htot : total_customers (cohort_agg df k) = shape0 g).
  { cbn [cohort_agg total_customers]. fold g. unfold shape0.
    rewrite agg_count_no_missing, length_map; [reflexivity|].
    intros x Hx. apply in_map_iff in Hx as [r [<- Hr]]. now apply Hid. }
  assert (Hsum : retained (cohort_agg df k) + cohort_churned df k < shape0 g).
  { cbn [cohort_agg retained]. unfold cohort_churned. fold g.
    apply (sum_mask_disjoint_strict _ _ g (add_columns c)).
    - intros y. apply num_eq_zero_one.
    - exact Hr0.
    - now rewrite Hflag.
    - now rewrite Hflag. }
  split; [exact Hflag|]. split.
  { unfold cohort_data. apply in_map. apply group_keys_In.
    rewrite <- Hk. apply in_map. apply load_In. now exists c. }
  split; [exact Htot|]. split; [now rewrite Htot|].
  assert (Hpos : 0 < shape0 g).
  { unfold shape0. destruct g; [destruct Hr0 | cbn; lia]. }
  rewrite Htot. cbn [cohort_agg retention_rate]. fold g.
  replace (agg_count (map (fun r => customerID (base r)) g)) with (shape0 g)
    by (rewrite <- Htot; reflexivity).
  apply truediv_lt; [|exact Hpos]. unfold cohort_not_churned. fold g.
  apply (sum_mask_monotone_strict _ _ g (add_columns c)).
  - intros y Hin Hy0. apply cell_ne_true. apply num_eq_true in Hy0.
    apply cohort_group_In in Hin as [Hin _].
    apply load_In in Hin as [c' [-> _]].
    apply Churn_flag_zero in Hy0. cbn [add_columns base]. rewrite Hy0.
    discriminate.
  - exact Hr0.
  - now rewrite Hflag.
  - apply cell_ne_true. cbn [add_columns base]. rewrite Hs. congruence.
Qed.

Lemma other_label_undercounts_witness :
  retained (cohort_agg (load [cust_dsl_active; cust_other_label]) 600)
  + cohort_churned (load [cust_dsl_active; cust_other_label]) 600
  < total_customers (cohort_agg (load [cust_dsl_active; cust_other_label]) 600).
Proof.
  assert (Hid : forall r,
             In r (cohort_group (load [cust_dsl_active; cust_other_label]) 600)
             -> customerID (base r) <> None).
  { assert (Eg : cohort_group (load [cust_dsl_active; cust_other_label]) 600
                 = load [cust_dsl_active; cust_other_label])
      by (vm_compute; reflexivity).
    rewrite Eg. intros r [<-|[<-|[]]]; discriminate. }
  assert (Hin : In cust_other_label [cust_dsl_active; cust_other_label]).
  { right. left. reflexivity. }
  assert (Hy : "Maybe"%string <> "Yes"%string) by discriminate.
  assert (Hn : "Maybe"%string <> "No"%string) by discriminate.
  assert (Hk : signup_month (add_columns cust_other_label) = Some 600)
    by (vm_compute; reflexivity).
  exact (proj1 (proj2 (proj2 (proj2 (proj2 (proj2
           (other_label_undercounts
              [cust_dsl_active; cust_other_label] cust_other_label
              "Maybe" 600 Hin eq_refl Hy Hn Hk Hid))))))).
Defined.

(** C9, as stated, fails for a record that also lacks its customerID: it is
    not counted in [total_customers], and [retained + churned] is not below
    it. *)
Lemma other_label_missing_id_counterexample :
  In cust_other_label_no_id [cust_other_label_no_id] /\
  Churn cust_other_label_no_id = Some "Maybe"%string /\
  signup_month (add_columns cust_other_label_no_id) = Some 600 /\
  total_customers (cohort_agg (load [cust_other_label_no_id]) 600) = 0 /\
  ~ (retained (cohort_agg (load [cust_other_label_no_id]) 600)
     + cohort_churned (load [cust_other_label_no_id]) 600
     < total_customers (cohort_agg (load [cust_other_label_no_id]) 600)).
Proof.
  split; [now left|]. split; [reflexivity|].
  split; [vm_compute; reflexivity|]. split; [vm_compute; reflexivity|].
  vm_compute. discriminate.
Qed.

End OtherLabels.

(** ** Group-by over the experiment groups *)

Section GroupBy.

Lemma agg_sum_cons (x : option Z) (col : list (option Z)) :
  agg_sum (x :: col) = match x with Some z => z + agg_sum col | None => agg_sum col end.
Proof. reflexivity. Qed.

Lemma agg_count_cons {T : Type} (x : option T) (col : list (option T)) :
  agg_count (x :: col) = (if notna x then 1 else 0) + agg_count col.
Proof. unfold agg_count. cbn. destruct x; cbn [notna length]; lia. Qed.

(** A group in which no flag is present sums to 0. *)
Lemma agg_count_zero_sum (col : list (option Z)) :
  agg_count col = 0 -> agg_sum col = 0.
Proof.
  induction col as [|x col IH]; [reflexivity|].
  rewrite agg_count_cons, agg_sum_cons.
  pose proof (agg_count_bounds col) as Hb. destruct x; cbn [notna]; [lia|].
  intros H0. apply IH. lia.
Qed.

Lemma group_eqb_eq (g h : group) : group_eqb g h = true <-> g = h.
Proof. destruct g, h; cbn; split; congruence. Qed.

Lemma group_rows_In (t : list exp_row) (g : group) (r : exp_row) :
  In r (group_rows t g) <-> In r t /\ assigned r = g.
Proof. unfold group_rows. now rewrite List.filter_In, group_eqb_eq. Qed.

(** The row reported for a group is there exactly when the group has a
    record, and aggregates the flags of that group's records. *)
Lemma agg_of_groupby (t : list exp_row) (g : group) :
  agg_of (groupby_agg t) g =
    match group_rows t g with
    | [] => None
    | rows => Some (agg_named g (map (fun r => Churn_flag (data r)) rows))
    end.
Proof.
  unfold agg_of, groupby_agg, group_agg.
  destruct g; destruct (group_rows t A) as [|a ra];
    destruct (group_rows t B) as [|b rb]; reflexivity.
Qed.

Lemma agg_of_observed (t : list exp_row) (g : group) :
  group_rows t g <> [] ->
  agg_of (groupby_agg t) g =
    Some (agg_named g (map (fun r => Churn_flag (data r)) (group_rows t g))).
Proof.
  intros Hne. rewrite agg_of_groupby.
  destruct (group_rows t g); [contradiction | reflexivity].
Qed.

Lemma agg_of_unobserved (t : list exp_row) (g : group) :
  group_rows t g = [] -> agg_of (groupby_agg t) g = None.
Proof. intros He. now rewrite agg_of_groupby, He. Qed.

Lemma groupby_agg_rows (t : list exp_row) :
  Forall (fun r => exists col, r = agg_named (agg_group r) col)
         (groupby_agg t).
Proof.
  unfold groupby_agg, group_agg. apply List.Forall_app.
  split; [destruct (group_rows t A) | destruct (group_rows t B)];
    constructor; try constructor; eexists; reflexivity.
Qed.

End GroupBy.

(** ** Rates whose denominator is zero *)

Section ZeroDenominator.

Lemma value_counts_cons (x : option string) (col : list (option string)) :
  value_counts (x :: col) =
    match x with
    | Some s => <[s := default 0 (value_counts col !! s) + 1]> (value_counts col)
    | None => value_counts col
    end.
Proof. reflexivity. Qed.

(** Every count of [value_counts] is at least 1 and at most the length of the
    column. *)
Lemma value_counts_bounds (col : list (option string)) (s : string) (n : Z) :
  value_counts col !! s = Some n -> 1 <= n <= Z.of_nat (length col).
Proof.
  revert n. induction col as [|x col IH]; intros n.
  - unfold value_counts. cbn. rewrite lookup_empty. discriminate.
  - rewrite value_counts_cons. cbn [length]. rewrite Nat2Z.inj_succ.
    destruct x as [s'|].
    + destruct (decide (s' = s)) as [->|Hne].
      * rewrite lookup_insert_eq. intros [= <-].
        destruct (value_counts col !! s) as [m|]; cbn.
        -- specialize (IH m eq_refl). lia.
        -- lia.
      * rewrite lookup_insert_ne by exact Hne. intros H.
        specialize (IH n H). lia.
    + intros H. specialize (IH n H). lia.
Qed.

(** C6 (amended). No rate computation raises on a zero denominator; each is a
    float division.  The funnel Conversion and the per-group churn rate are
    NaN whenever their denominator is zero.  The churn percentage has no
    entry for a table without rows, and each entry it has is a finite number
    over a positive row count.  The cohort retention_rate over zero
    [total_customers] is NaN when no record of the cohort is retained and
    +inf otherwise. *)
Theorem rates_on_zero_denominator :
  (forall df, total_signed df = 0 ->
              Forall (fun f => Conversion f = NaN) (funnel df)) /\
  (forall t, Forall (fun r => total r = 0 -> rate r = NaN) (groupby_agg t)) /\
  (forall csv, shape0 csv = 0 -> churn_percentage csv = ∅) /\
  (forall csv s x, churn_percentage csv !! s = Some x ->
                   0 < shape0 csv /\ exists q, x = Finite q) /\
  (forall df, Forall (fun c => total_customers c = 0 ->
                               retention_rate c =
                                 if retained c =? 0 then NaN else PosInf)
                     (cohort_data df)).
Proof.
  split; [|split; [|split; [|split]]].
  - intros df H0. unfold funnel. cbn [map fst snd].
    assert (Hb := funnel_counts_bounded df). unfold funnel in Hb.
    cbn [map fst snd] in Hb. rewrite H0 in *.
    repeat match goal with
           | H : Forall _ (_ :: _) |- _ =>
               apply List.Forall_cons_iff in H; destruct H as [? H]
           end.
    cbn [Count] in *.
    repeat constructor; cbn [Conversion];
      match goal with
      | |- truediv ?n 0 = NaN => replace n with 0 by lia; reflexivity
      end.
  - intros t. eapply List.Forall_impl; [|apply groupby_agg_rows].
    intros r [col Hr] Ht. rewrite Hr in *. cbn [agg_named total rate] in *.
    rewrite Ht, (agg_count_zero_sum col Ht). reflexivity.
  - intros csv H0. unfold shape0 in H0. destruct csv; [|cbn in H0; lia].
    unfold churn_percentage, churn_counts. cbn. apply fmap_empty.
  - intros csv s x H. unfold churn_percentage in H.
    rewrite lookup_fmap in H. apply fmap_Some in H as [n [Hn ->]].
    apply value_counts_bounds in Hn. rewrite length_map in Hn.
    assert (Hpos : 0 < shape0 csv) by (unfold shape0; lia).
    split; [exact Hpos|]. rewrite truediv_nonzero by lia.
    cbn. eexists. reflexivity.
  - intros df. unfold cohort_data. rewrite List.Forall_map.
    apply List.Forall_forall. intros k _.
    cbn [cohort_agg total_customers retained retention_rate]. intros H0.
    rewrite H0. apply truediv_zero_denominator. apply sum_mask_bounds.
Qed.

Lemma rates_on_zero_denominator_witness :
  total_signed (load []) = 0 /\
  Forall (fun f => Conversion f = NaN) (funnel (load [])).
Proof.
  split; [reflexivity|].
  exact (proj1 rates_on_zero_denominator (load []) eq_refl).
Defined.

(** C6, as stated, fails for the cohort rate: a cohort whose only record has
    no customerID but is retained divides 1 by 0 and reports +inf, not NaN. *)
Lemma cohort_rate_zero_denominator_counterexample :
  cohort_data (load [cust_no_id]) =
    [ {| cohort_signup_month := 600;
         total_customers := 0;
         retained := 1;
         retention_rate := PosInf |} ] /\
  ~ Forall (fun c => total_customers c = 0 -> is_nan (retention_rate c) = true)
           (cohort_data (load [cust_no_id])).
Proof.
  assert (E : cohort_data (load [cust_no_id]) =
              [ {| cohort_signup_month := 600;
                   total_customers := 0;
                   retained := 1;
                   retention_rate := PosInf |} ])
    by (vm_compute; reflexivity).
  rewrite E. split; [reflexivity|].
  intros H. inversion H as [|c cs Hc _]; subst.
  specialize (Hc eq_refl). discriminate.
Qed.

End ZeroDenominator.

(** ** Cell 4: the experiment *)

Section Experiment.

Lemma choice_length (rng : nat -> group) (n : nat) : length (choice rng n) = n.
Proof. unfold choice. now rewrite length_map, length_seq. Qed.

Lemma set_group_data (t : list row) (labels : list group) :
  length labels = length t -> map data (set_group t labels) = t.
Proof.
  unfold set_group. revert labels.
  induction t as [|r t IH]; intros [|g labels] Hlen; try discriminate.
  - reflexivity.
  - cbn. f_equal. apply IH. now injection Hlen.
Qed.

(** [mtm] keeps the filtered rows, in order, and adds one label to each. *)
Lemma mtm_data (df : list row) (rng : nat -> group) :
  map data (mtm df rng) = month_to_month df.
Proof. unfold mtm. apply set_group_data, choice_length. Qed.

Lemma mtm_shape (df : list row) (rng : nat -> group) :
  shape0 (mtm df rng) = shape0 (month_to_month df).
Proof. unfold shape0. now rewrite <- (mtm_data df rng), length_map. Qed.

Lemma reported_total_count (t : list exp_row) (g : group) :
  reported_total (groupby_agg t) g =
    agg_count (map (fun r => Churn_flag (data r)) (group_rows t g)).
Proof.
  unfold reported_total. rewrite agg_of_groupby.
  destruct (group_rows t g); reflexivity.
Qed.

(** The two groups split the non-missing flags of the table. *)
Lemma agg_count_groups (t : list exp_row) :
  agg_count (map (fun r => Churn_flag (data r)) (group_rows t A))
  + agg_count (map (fun r => Churn_flag (data r)) (group_rows t B))
  = agg_count (map (fun r => Churn_flag (data r)) t).
Proof.
  unfold group_rows. induction t as [|r t IH]; [reflexivity|].
  cbn [List.filter map]. destruct (assigned r); cbn [group_eqb map];
    rewrite !agg_count_cons; lia.
Qed.

(** C5 (amended). For every realisation of the draw, the reported totals of
    the two groups add up to the number of records of the month-to-month
    subset whose churn flag is not null; they add up to the size of the
    subset when every record of the subset has a flag, that is a label 'Yes'
    or 'No'. *)
Theorem reported_totals_partition (df : list row) (rng : nat -> group) :
  reported_total (grouped df rng) A + reported_total (grouped df rng) B
    = agg_count (map Churn_flag (month_to_month df)) /\
  ((forall r, In r (month_to_month df) -> Churn_flag r <> None) ->
   reported_total (grouped df rng) A + reported_total (grouped df rng) B
     = shape0 (mtm df rng)).
Proof.
  assert (Hsum : reported_total (grouped df rng) A
                 + reported_total (grouped df rng) B
                 = agg_count (map Churn_flag (month_to_month df))).
  { unfold grouped. rewrite !reported_total_count, agg_count_groups.
    now rewrite <- (map_map data Churn_flag), mtm_data. }
  split; [exact Hsum|]. intros Hflag. rewrite Hsum, mtm_shape.
  unfold shape0. rewrite agg_count_no_missing, length_map; [reflexivity|].
  intros x Hx. apply in_map_iff in Hx as [r [<- Hr]]. now apply Hflag.
Qed.

Lemma reported_totals_partition_witness :
  (forall r, In r (month_to_month (load [cust_dsl_active; cust_fiber_churned]))
             -> Churn_flag r <> None) /\
  reported_total
    (grouped (load [cust_dsl_active; cust_fiber_churned]) alternate) A
  + reported_total
      (grouped (load [cust_dsl_active; cust_fiber_churned]) alternate) B
  = shape0 (mtm (load [cust_dsl_active; cust_fiber_churned]) alternate).
Proof.
  assert (H : forall r,
             In r (month_to_month (load [cust_dsl_active; cust_fiber_churned]))
             -> Churn_flag r <> None).
  { assert (E : month_to_month (load [cust_dsl_active; cust_fiber_churned])
                = load [cust_dsl_active; cust_fiber_churned])
      by (vm_compute; reflexivity).
    rewrite E. intros r [<-|[<-|[]]]; vm_compute; discriminate. }
  split; [exact H|].
  exact (proj2 (reported_totals_partition
                  (load [cust_dsl_active; cust_fiber_churned]) alternate) H).
Defined.

(** C5, as stated, fails when a month-to-month record has a label other than
    'Yes' and 'No': its flag is null, ['count'] skips it, and the reported
    totals add up to 0 for a subset of one record. *)
Lemma reported_totals_null_flag_counterexample :
  grouped (load [cust_other_label]) all_A =
    [ {| agg_group := A; total := 0; churned := 0; rate := NaN |} ] /\
  shape0 (mtm (load [cust_other_label]) all_A) = 1 /\
  reported_total (grouped (load [cust_other_label]) all_A) A
  + reported_total (grouped (load [cust_other_label]) all_A) B
  <> shape0 (mtm (load [cust_other_label]) all_A).
Proof.
  split; [vm_compute; reflexivity|]. split; [vm_compute; reflexivity|].
  vm_compute. discriminate.
Qed.

Lemma loc_set_flag_map (p : exp_row -> bool) (v : Z) (t : list exp_row) :
  loc_set_flag t (map p t) v =
    map (fun r => if p r then set_Churn_flag (Some v) r else r) t.
Proof.
  unfold loc_set_flag. induction t as [|r t IH]; [reflexivity|].
  cbn. now rewrite IH.
Qed.

Lemma treat_map (t : list exp_row) :
  treat t = map (fun r => if group_eqb (assigned r) B
                          then set_Churn_flag (Some 0) r else r) t.
Proof. apply loc_set_flag_map. Qed.

(** The treatment rewrites the records of group B and no other. *)
Lemma treat_group_B (t : list exp_row) :
  group_rows (treat t) B = map (set_Churn_flag (Some 0)) (group_rows t B).
Proof.
  rewrite treat_map. unfold group_rows.
  induction t as [|r t IH]; [reflexivity|].
  cbn [map List.filter]. destruct r as [d []]; cbn; now rewrite IH.
Qed.

Lemma treat_group_A (t : list exp_row) :
  group_rows (treat t) A = group_rows t A.
Proof.
  rewrite treat_map. unfold group_rows.
  induction t as [|r t IH]; [reflexivity|].
  cbn [map List.filter]. destruct r as [d []]; cbn; now rewrite IH.
Qed.

Lemma zeroed_flags (rows : list exp_row) :
  agg_count (map (fun r => Churn_flag (data r))
                 (map (set_Churn_flag (Some 0)) rows))
    = shape0 rows /\
  agg_sum (map (fun r => Churn_flag (data r))
               (map (set_Churn_flag (Some 0)) rows)) = 0.
Proof.
  unfold shape0. induction rows as [|r rows [IHc IHs]]; [split; reflexivity|].
  cbn [map]. rewrite agg_count_cons, agg_sum_cons. cbn [length].
  cbn [set_Churn_flag data Churn_flag notna]. rewrite IHc, IHs. lia.
Qed.

(** C1 (amended). After the treatment, whenever at least one record is
    assigned to group B, the recomputed aggregation has a row for B whose
    total is the number of B records, whose churned count is 0 and whose rate
    is exactly 0; when no record is assigned to B the aggregation has no row
    for B. *)
Theorem treated_group_B_zero (df : list row) (rng : nat -> group) :
  (group_rows (mtm df rng) B <> [] ->
   exists r, agg_of (grouped_effect df rng) B = Some r /\
             total r = shape0 (group_rows (mtm df rng) B) /\
             churned r = 0 /\
             rate r = Finite 0) /\
  (group_rows (mtm df rng) B = [] ->
   agg_of (grouped_effect df rng) B = None).
Proof.
  unfold grouped_effect, mtm_effect.
  set (rows := group_rows (mtm df rng) B). split.
  - intros Hne. destruct (zeroed_flags rows) as [Hc Hs].
    eexists. split.
    + apply agg_of_observed. rewrite treat_group_B. fold rows.
      destruct rows; [contradiction | discriminate].
    + rewrite treat_group_B. fold rows.
      cbn [agg_named total churned rate]. rewrite Hc, Hs.
      repeat split. apply truediv_zero_numerator.
      unfold shape0. destruct rows; [contradiction | cbn; lia].
  - intros He. apply agg_of_unobserved. rewrite treat_group_B. fold rows.
    now rewrite He.
Qed.

Lemma treated_group_B_zero_witness :
  group_rows (mtm (load [cust_dsl_active; cust_fiber_churned]) alternate) B
    <> [] /\
  exists r,
    agg_of (grouped_effect (load [cust_dsl_active; cust_fiber_churned])
                           alternate) B = Some r /\
    total r = shape0 (group_rows
                        (mtm (load [cust_dsl_active; cust_fiber_churned])
                             alternate) B) /\
    churned r = 0 /\
    rate r = Finite 0.
Proof.
  assert (H : group_rows
                (mtm (load [cust_dsl_active; cust_fiber_churned]) alternate) B
              <> []) by (vm_compute; discriminate).
  split; [exact H|].
  exact (proj1 (treated_group_B_zero
                  (load [cust_dsl_active; cust_fiber_churned]) alternate) H).
Defined.

(** C1, as stated, fails for the draws that assign no record to group B: the
    recomputed aggregation then has a row for A only, and reports neither a
    churned count nor a rate for B. *)
Lemma treated_group_B_absent_counterexample :
  grouped_effect (load [cust_dsl_active]) all_A =
    [ {| agg_group := A; total := 1; churned := 0; rate := Finite 0 |} ] /\
  ~ exists r, agg_of (grouped_effect (load [cust_dsl_active]) all_A) B = Some r
              /\ churned r = 0 /\ rate r = Finite 0.
Proof.
  assert (E : grouped_effect (load [cust_dsl_active]) all_A =
              [ {| agg_group := A; total := 1; churned := 0;
                   rate := Finite 0 |} ])
    by (vm_compute; reflexivity).
  rewrite E. split; [reflexivity|]. intros [r [Hr _]]. discriminate Hr.
Qed.

End Experiment.

(** ** The experiment cells over the store *)

Section Store.

Lemma fresh_not_allocated (h : gmap positive obj) (l : positive) (o : obj) :
  h !! l = Some o -> l <> fresh (dom h).
Proof.
  intros Hl ->. apply (is_fresh (dom h)). apply elem_of_dom. now exists o.
Qed.

Lemma deref_Some (x : string) (σ : state) (o : obj) :
  deref x σ = Some o <->
  exists l, env σ !! x = Some l /\ heap σ !! l = Some o.
Proof. unfold deref. apply bind_Some. Qed.

Lemma get_table_deref (x : string) (σ : state) (t : list row) :
  deref x σ = Some (Table t) -> get_table x σ = Some t.
Proof. unfold get_table. now intros ->. Qed.

Lemma get_frame_deref (x : string) (σ : state) (t : list exp_row) :
  deref x σ = Some (Frame t) -> get_frame x σ = Some t.
Proof. unfold get_frame. now intros ->. Qed.

Lemma get_frame_Some (x : string) (σ : state) (t : list exp_row) :
  get_frame x σ = Some t -> deref x σ = Some (Frame t).
Proof.
  unfold get_frame. destruct (deref x σ) as [[]|]; cbn; congruence.
Qed.

Lemma get_table_Some (x : string) (σ : state) (t : list row) :
  get_table x σ = Some t -> deref x σ = Some (Table t).
Proof.
  unfold get_table. destruct (deref x σ) as [[]|]; cbn; congruence.
Qed.

(** A new object is read back through its name ... *)
Lemma deref_new_var (x : string) (o : obj) (σ : state) :
  deref x (new_var x o σ) = Some o.
Proof.
  unfold deref, new_var. cbn. rewrite lookup_insert_eq. cbn.
  apply lookup_insert_eq.
Qed.

(** ... and leaves every object that another name reaches as it was. *)
Lemma deref_new_var_other (x y : string) (o v : obj) (σ : state) :
  x <> y -> deref y σ = Some v -> deref y (new_var x o σ) = Some v.
Proof.
  intros Hxy Hy. apply deref_Some in Hy as [l [Hl Hv]].
  apply deref_Some. exists l. unfold new_var. cbn.
  rewrite lookup_insert_ne by exact Hxy. split; [exact Hl|].
  rewrite lookup_insert_ne; [exact Hv|].
  apply not_eq_sym. eapply fresh_not_allocated. exact Hv.
Qed.

(** The name of a new object shares its location with no name that reaches
    an object. *)
Lemma new_var_separate (x y : string) (o v : obj) (σ : state) :
  x <> y -> deref y σ = Some v ->
  env (new_var x o σ) !! y <> env (new_var x o σ) !! x.
Proof.
  intros Hxy Hy. apply deref_Some in Hy as [l [Hl Hv]].
  unfold new_var. cbn. rewrite lookup_insert_eq, lookup_insert_ne by exact Hxy.
  rewrite Hl. intros [= ->]. now apply (fresh_not_allocated _ _ _ Hv).
Qed.

Lemma write_var_Some (x : string) (o v : obj) (σ : state) :
  deref x σ = Some v -> exists σ', write_var x o σ = Some σ'.
Proof.
  intros Hx. apply deref_Some in Hx as [l [Hl _]].
  unfold write_var. rewrite Hl. cbn. eexists. reflexivity.
Qed.

Lemma deref_write_var (x : string) (o : obj) (σ σ' : state) :
  write_var x o σ = Some σ' -> deref x σ' = Some o.
Proof.
  unfold write_var. intros H. apply bind_Some in H as [l [Hl [= <-]]].
  apply deref_Some. exists l. cbn. split; [exact Hl|]. apply lookup_insert_eq.
Qed.

(** A write through [x] is seen through [y] only if both name one object. *)
Lemma deref_write_var_other (x y : string) (o : obj) (σ σ' : state) :
  write_var x o σ = Some σ' ->
  env σ !! y <> env σ !! x ->
  deref y σ' = deref y σ.
Proof.
  unfold write_var. intros H Hsep. apply bind_Some in H as [l [Hl [= <-]]].
  unfold deref. cbn. destruct (env σ !! y) as [l'|]; [cbn|reflexivity].
  apply lookup_insert_ne. intros ->. apply Hsep. now rewrite Hl.
Qed.

Lemma deref_write_var_alias (x y : string) (o : obj) (σ σ' : state) :
  write_var x o σ = Some σ' ->
  env σ !! y = env σ !! x ->
  deref y σ' = Some o.
Proof.
  unfold write_var. intros H Hal. apply bind_Some in H as [l [Hl [= <-]]].
  apply deref_Some. exists l. cbn. split; [congruence|].
  apply lookup_insert_eq.
Qed.

End Store.

Section Cells.

(** Running the baseline cell on a store that holds [df]. *)
Lemma cell_baseline_run (rng : nat -> group) (σ : state) (d : list row) :
  deref "df" σ = Some (Table d) ->
  exists σ', cell_baseline rng σ = Some σ' /\
             deref "df" σ' = Some (Table d) /\
             deref "mtm" σ' = Some (Frame (mtm d rng)) /\
             deref "grouped" σ' = Some (Result (grouped d rng)).
Proof.
  intros Hdf. unfold cell_baseline.
  rewrite (get_table_deref _ _ _ Hdf). cbn [mbind option_bind].
  set (σ1 := new_var "mtm" (Table (month_to_month d)) σ).
  assert (H1 : deref "mtm" σ1 = Some (Table (month_to_month d)))
    by apply deref_new_var.
  assert (Hdf1 : deref "df" σ1 = Some (Table d))
    by (apply deref_new_var_other; [discriminate | exact Hdf]).
  rewrite (get_table_deref _ _ _ H1). cbn [mbind option_bind].
  fold (mtm d rng).
  destruct (write_var_Some "mtm" (Frame (mtm d rng)) _ σ1 H1) as [σ2 Hw].
  rewrite Hw. cbn [mbind option_bind].
  assert (H2 : deref "mtm" σ2 = Some (Frame (mtm d rng)))
    by exact (deref_write_var _ _ _ _ Hw).
  assert (Hdf2 : deref "df" σ2 = Some (Table d)).
  { rewrite (deref_write_var_other _ "df" _ _ _ Hw); [exact Hdf1|].
    eapply new_var_separate; [discriminate | exact Hdf]. }
  rewrite (get_frame_deref _ _ _ H2). cbn [mbind option_bind].
  eexists. split; [reflexivity|]. split; [|split].
  - apply deref_new_var_other; [discriminate | exact Hdf2].
  - apply deref_new_var_other; [discriminate | exact H2].
  - apply deref_new_var.
Qed.

(** Running the treatment statements on the frame named [x]: the frame is
    rewritten in place, a new result is bound to [grouped_effect], and every
    object reached through a name that is not an alias of [x] is left as it
    was. *)
Lemma apply_effect_run (x : string) (σ : state) (e : list exp_row) :
  x <> "grouped_effect"%string ->
  deref x σ = Some (Frame e) ->
  exists σ', apply_effect x σ = Some σ' /\
             deref x σ' = Some (Frame (treat e)) /\
             deref "grouped_effect" σ'
               = Some (Result (groupby_agg (treat e))) /\
             (forall y v, y <> "grouped_effect"%string ->
                          env σ !! y <> env σ !! x ->
                          deref y σ = Some v -> deref y σ' = Some v) /\
             (forall y, y <> "grouped_effect"%string ->
                        env σ !! y = env σ !! x ->
                        deref y σ' = Some (Frame (treat e))).
Proof.
  intros Hx He. unfold apply_effect.
  rewrite (get_frame_deref _ _ _ He). cbn [mbind option_bind].
  fold (treat e).
  destruct (write_var_Some x (Frame (treat e)) _ σ He) as [σ1 Hw].
  rewrite Hw. cbn [mbind option_bind].
  assert (H1 : deref x σ1 = Some (Frame (treat e)))
    by exact (deref_write_var _ _ _ _ Hw).
  rewrite (get_frame_deref _ _ _ H1). cbn [mbind option_bind].
  eexists. split; [reflexivity|]. split; [|split; [|split]].
  - apply deref_new_var_other; [congruence | exact H1].
  - apply deref_new_var.
  - intros y v Hy Hsep Hv. apply deref_new_var_other; [congruence|].
    now rewrite (deref_write_var_other _ y _ _ _ Hw Hsep).
  - intros y Hy Hal. apply deref_new_var_other; [congruence|].
    exact (deref_write_var_alias _ y _ _ _ Hw Hal).
Qed.

(** The cell as written: the treatment is applied to a copy. *)
Lemma cell_effect_run (σ : state) (m : list exp_row) :
  deref "mtm" σ = Some (Frame m) ->
  exists σ', cell_effect σ = Some σ' /\
             deref "mtm_effect" σ' = Some (Frame (treat m)) /\
             deref "grouped_effect" σ'
               = Some (Result (groupby_agg (treat m))) /\
             (forall y v, y <> "mtm_effect"%string ->
                          y <> "grouped_effect"%string ->
                          deref y σ = Some v -> deref y σ' = Some v).
Proof.
  intros Hm. unfold cell_effect.
  rewrite (get_frame_deref _ _ _ Hm). cbn [mbind option_bind].
  set (σ1 := new_var "mtm_effect" (Frame m) σ).
  assert (H1 : deref "mtm_effect" σ1 = Some (Frame m)) by apply deref_new_var.
  destruct (apply_effect_run "mtm_effect" σ1 m ltac:(discriminate) H1)
    as [σ' [Hrun [He [Hg [Hsep _]]]]].
  exists σ'. split; [exact Hrun|]. split; [exact He|]. split; [exact Hg|].
  intros y v Hy1 Hy2 Hv. apply Hsep; [exact Hy2 | |].
  - eapply new_var_separate; [congruence | exact Hv].
  - apply deref_new_var_other; [congruence | exact Hv].
Qed.

(** Without the copy the treatment is written into [mtm] itself. *)
Lemma cell_effect_no_copy_run (σ : state) (m : list exp_row) :
  deref "mtm" σ = Some (Frame m) ->
  exists σ', cell_effect_no_copy σ = Some σ' /\
             deref "mtm" σ' = Some (Frame (treat m)).
Proof.
  intros Hm. unfold cell_effect_no_copy, alias_var.
  destruct (proj1 (deref_Some _ _ _) Hm) as [l [Hl Hv]].
  rewrite Hl. cbn [mbind option_bind].
  set (σ1 := {| env := <["mtm_effect":=l]> (env σ); heap := heap σ |}).
  assert (H1 : deref "mtm_effect" σ1 = Some (Frame m)).
  { apply deref_Some. exists l. cbn. now rewrite lookup_insert_eq. }
  destruct (apply_effect_run "mtm_effect" σ1 m ltac:(discriminate) H1)
    as [σ' [Hrun [_ [_ [_ Hal]]]]].
  exists σ'. split; [exact Hrun|]. apply Hal; [discriminate|].
  cbn. rewrite lookup_insert_eq, lookup_insert_ne by discriminate.
  exact Hl.
Qed.

(** C8. Running the baseline cell and then the treatment cell on a store
    that holds [df] succeeds; the treatment is written to a new object, so
    afterwards [mtm] is still the table the baseline cell built (its churn
    flags included), [grouped] is still the baseline aggregation, and the row
    of group A in [grouped_effect] is the row of group A in [grouped]. *)
Theorem treatment_preserves_baseline
        (rng : nat -> group) (σ : state) (d : list row) :
  deref "df" σ = Some (Table d) ->
  exists σ1 σ2,
    cell_baseline rng σ = Some σ1 /\
    cell_effect σ1 = Some σ2 /\
    deref "mtm" σ1 = Some (Frame (mtm d rng)) /\
    deref "mtm" σ2 = deref "mtm" σ1 /\
    deref "grouped" σ1 = Some (Result (grouped d rng)) /\
    deref "grouped" σ2 = deref "grouped" σ1 /\
    deref "df" σ2 = Some (Table d) /\
    deref "mtm_effect" σ2 = Some (Frame (mtm_effect d rng)) /\
    deref "grouped_effect" σ2 = Some (Result (grouped_effect d rng)) /\
    agg_of (grouped_effect d rng) A = agg_of (grouped d rng) A.
Proof.
  intros Hdf.
  destruct (cell_baseline_run rng σ d Hdf) as [σ1 [Hb [Hdf1 [Hm1 Hg1]]]].
  destruct (cell_effect_run σ1 (mtm d rng) Hm1) as [σ2 [He [Hme [Hge Hfr]]]].
  exists σ1, σ2. split; [exact Hb|]. split; [exact He|].
  split; [exact Hm1|]. split.
  { rewrite Hm1. apply Hfr; [discriminate | discriminate | exact Hm1]. }
  split; [exact Hg1|]. split.
  { rewrite Hg1. apply Hfr; [discriminate | discriminate | exact Hg1]. }
  split.
  { apply Hfr; [discriminate | discriminate | exact Hdf1]. }
  split; [exact Hme|]. split; [exact Hge|].
  unfold grouped_effect, mtm_effect, grouped.
  now rewrite !agg_of_groupby, treat_group_A.
Qed.

Lemma treatment_preserves_baseline_witness :
  deref "df" (initial_state (load [cust_dsl_active; cust_fiber_churned]))
    = Some (Table (load [cust_dsl_active; cust_fiber_churned])) /\
  exists σ1 σ2,
    cell_baseline alternate
      (initial_state (load [cust_dsl_active; cust_fiber_churned])) = Some σ1 /\
    cell_effect σ1 = Some σ2 /\
    deref "mtm" σ2 = deref "mtm" σ1 /\
    deref "grouped" σ2 = deref "grouped" σ1.
Proof.
  assert (H : deref "df"
                (initial_state (load [cust_dsl_active; cust_fiber_churned]))
              = Some (Table (load [cust_dsl_active; cust_fiber_churned])))
    by apply deref_new_var.
  split; [exact H|].
  destruct (treatment_preserves_baseline
              alternate _ (load [cust_dsl_active; cust_fiber_churned]) H)
    as [σ1 [σ2 [Hb [He [_ [Hm [_ [Hg _]]]]]]]].
  exists σ1, σ2. repeat split; assumption.
Defined.

(** The treatment does change the flags it is applied to: on this table the
    copy's flag for the churned customer of group B becomes 0 while [mtm]
    keeps 1. *)
Example treatment_changes_copy_only :
  map (fun r => Churn_flag (data r))
      (mtm (load [cust_dsl_active; cust_fiber_churned]) alternate)
    = [Some 0; Some 1] /\
  map (fun r => Churn_flag (data r))
      (mtm_effect (load [cust_dsl_active; cust_fiber_churned]) alternate)
    = [Some 0; Some 0].
Proof. split; vm_compute; reflexivity. Qed.

End Cells.

(** ** Cell 1.1: the churn distribution *)

Section ChurnDistribution.

Lemma occurrences_cons (s : string) (x : option string)
      (col : list (option string)) :
  occurrences s (x :: col) = (if cell_eq x s then 1 else 0) + occurrences s col.
Proof. reflexivity. Qed.

Lemma occurrences_bounds (s : string) (col : list (option string)) :
  0 <= occurrences s col <= Z.of_nat (length col).
Proof.
  unfold occurrences, series_eq.
  pose proof (sum_mask_bounds (map (fun x => cell_eq x s) col)) as H.
  now rewrite length_map in H.
Qed.

(** X1. [value_counts] maps each label to the number of cells equal to it and
    has no entry for a label that occurs in no cell; a missing cell is
    counted under no label. *)
Theorem value_counts_occurrences (col : list (option string)) (s : string) :
  value_counts col !! s =
    if 0 <? occurrences s col then Some (occurrences s col) else None.
Proof.
  induction col as [|x col IH].
  - unfold value_counts. cbn. apply lookup_empty.
  - rewrite value_counts_cons, occurrences_cons.
    pose proof (occurrences_bounds s col) as Hb.
    destruct x as [s'|]; [|exact IH]. cbn [cell_eq].
    destruct (String.eqb_spec s' s) as [->|Hne].
    + rewrite lookup_insert_eq, IH.
      destruct (Z.ltb_spec 0 (occurrences s col)); cbn;
        destruct (Z.ltb_spec 0 (1 + occurrences s col)); try lia;
        f_equal; lia.
    + rewrite lookup_insert_ne by exact Hne. exact IH.
Qed.

Lemma series_sum_insert (m : gmap string Z) (s : string) (v : Z) :
  series_sum (<[s := v]> m) = series_sum m - default 0 (m !! s) + v.
Proof.
  unfold series_sum.
  assert (Hcomm : forall z1 z2 y : Z, z1 + (z2 + y) = z2 + (z1 + y))
    by (intros; lia).
  destruct (m !! s) as [old|] eqn:E; cbn.
  - rewrite <- (insert_delete_eq m s v).
    rewrite map_fold_insert_L;
      [|intros; apply Hcomm | apply lookup_delete_eq].
    rewrite (map_fold_delete_L _ _ s old m);
      [|intros; apply Hcomm | exact E].
    lia.
  - rewrite map_fold_insert_L; [|intros; apply Hcomm | exact E]. lia.
Qed.

(** X2. The counts of [value_counts] add up to the number of non-missing
    cells of the column. *)
Theorem value_counts_sum (col : list (option string)) :
  series_sum (value_counts col) = agg_count col.
Proof.
  induction col as [|x col IH].
  - unfold value_counts, series_sum. cbn. apply map_fold_empty.
  - rewrite value_counts_cons, agg_count_cons.
    destruct x as [s|]; cbn [notna]; [|lia].
    rewrite series_sum_insert, IH. lia.
Qed.

Lemma churn_percentage_lookup (csv : list customer) (s : string) :
  churn_percentage csv !! s =
    if 0 <? occurrences s (map Churn csv)
    then Some (float_mul_Z
                 (truediv (occurrences s (map Churn csv)) (shape0 csv)) 100)
    else None.
Proof.
  unfold churn_percentage, churn_counts.
  rewrite lookup_fmap, value_counts_occurrences.
  now destruct (0 <? occurrences s (map Churn csv)).
Qed.

Lemma percent_Qeq (n N : Z) :
  0 < N ->
  (Qred (Qred (inject_Z n / inject_Z N) * inject_Z 100)
   == inject_Z (100 * n) / inject_Z N)%Q.
Proof.
  intros HN. rewrite !Qred_correct, inject_Z_mult. unfold Qdiv. ring.
Qed.

(** X3. The churn percentage has no entry for a label that does not occur;
    for a label that occurs it is a finite number greater than 0 and at most
    100. *)
Theorem churn_percentage_value (csv : list customer) (s : string) :
  (occurrences s (map Churn csv) = 0 -> churn_percentage csv !! s = None) /\
  (0 < occurrences s (map Churn csv) ->
   exists q, churn_percentage csv !! s = Some (Finite q) /\
             (0 < q)%Q /\ (q <= 100)%Q).
Proof.
  rewrite churn_percentage_lookup.
  pose proof (occurrences_bounds s (map Churn csv)) as Hb.
  rewrite length_map in Hb. fold (shape0 csv) in Hb.
  set (n := occurrences s (map Churn csv)) in *. split.
  - intros ->. reflexivity.
  - intros Hn. destruct (Z.ltb_spec 0 n); [|lia].
    assert (HN : 0 < shape0 csv) by lia.
    rewrite truediv_nonzero by lia. cbn [float_mul_Z].
    eexists. split; [reflexivity|].
    pose proof (percent_Qeq n (shape0 csv) HN) as Hq.
    pose proof (inject_Z_pos _ HN) as HNq.
    rewrite Hq. split.
    + apply Qlt_shift_div_l; [exact HNq|]. rewrite Qmult_0_l.
      change 0%Q with (inject_Z 0). rewrite <- Zlt_Qlt. lia.
    + apply Qle_shift_div_r; [exact HNq|].
      change 100%Q with (inject_Z 100). rewrite <- inject_Z_mult, <- Zle_Qle.
      lia.
Qed.

Lemma churn_percentage_value_witness :
  0 < occurrences "Yes" (map Churn [cust_dsl_active; cust_fiber_churned]) /\
  exists q,
    churn_percentage [cust_dsl_active; cust_fiber_churned] !! "Yes"%string
      = Some (Finite q) /\
    (0 < q)%Q /\ (q <= 100)%Q.
Proof.
  assert (H : 0 < occurrences "Yes"
                    (map Churn [cust_dsl_active; cust_fiber_churned]))
    by (vm_compute; reflexivity).
  split; [exact H|].
  exact (proj2 (churn_percentage_value
                  [cust_dsl_active; cust_fiber_churned] "Yes") H).
Defined.

End ChurnDistribution.

(** ** Cell 2: signup months and tenure *)

Section Calendar.

Lemma doy_yoe_bounds (doe : Z) :
  0 <= doe <= 146096 -> 0 <= doy_of doe <= 365 /\ 0 <= yoe_of doe <= 399.
Proof.
  intros H. unfold doy_of, yoe_of. Z.div_mod_to_equations. lia.
Qed.

Lemma mp_bounds (doe : Z) : 0 <= doe <= 146096 -> 0 <= mp_of doe <= 11.
Proof.
  intros H. destruct (doy_yoe_bounds doe H) as [Hd _]. unfold mp_of.
  Z.div_mod_to_equations. lia.
Qed.

Lemma yoe_mono (doe doe' : Z) :
  0 <= doe <= doe' -> doe' <= 146096 -> yoe_of doe <= yoe_of doe'.
Proof.
  intros H H'. unfold yoe_of. apply Z.div_le_mono; [lia|].
  Z.div_mod_to_equations. lia.
Qed.

Lemma month_in_era_mono (doe doe' : Z) :
  0 <= doe <= doe' -> doe' <= 146096 ->
  12 * yoe_of doe + mp_of doe <= 12 * yoe_of doe' + mp_of doe'.
Proof.
  intros H H'. pose proof (yoe_mono doe doe' H H') as Hy.
  pose proof (mp_bounds doe ltac:(lia)) as Hm.
  pose proof (mp_bounds doe' ltac:(lia)) as Hm'.
  destruct (Z.eq_dec (yoe_of doe) (yoe_of doe')) as [E|NE]; [|lia].
  rewrite E. apply Z.add_le_mono_l. unfold mp_of.
  apply Z.div_le_mono; [lia|]. unfold doy_of. rewrite E. lia.
Qed.

Lemma doe_range (z : Z) : 0 <= z - z / 146097 * 146097 <= 146096.
Proof. Z.div_mod_to_equations. lia. Qed.

Lemma year_month_era (days : Z) :
  year_month_of_days days =
    let z := days + 719468 in
    let doe := z - z / 146097 * 146097 in
    let m := if mp_of doe <? 10 then mp_of doe + 3 else mp_of doe - 9 in
    (yoe_of doe + z / 146097 * 400 + (if m <=? 2 then 1 else 0), m).
Proof. reflexivity. Qed.

Lemma to_period_M_era (s : Z) :
  to_period_M s =
    let z := s / 86400 + 719468 in
    let doe := z - z / 146097 * 146097 in
    (z / 146097 * 400 + yoe_of doe - 1970) * 12 + mp_of doe + 2.
Proof.
  unfold to_period_M. rewrite year_month_era. cbv zeta.
  set (z := s / 86400 + 719468). set (doe := z - z / 146097 * 146097).
  pose proof (mp_bounds doe (doe_range z)) as Hm.
  destruct (Z.ltb_spec (mp_of doe) 10).
  - destruct (Z.leb_spec (mp_of doe + 3) 2); lia.
  - destruct (Z.leb_spec (mp_of doe - 9) 2); lia.
Qed.

Lemma year_month_valid (days : Z) : 1 <= snd (year_month_of_days days) <= 12.
Proof.
  rewrite year_month_era. cbv zeta. cbn [snd].
  pose proof (mp_bounds _ (doe_range (days + 719468))) as Hm.
  destruct (Z.ltb_spec (mp_of (days + 719468
                               - (days + 719468) / 146097 * 146097)) 10); lia.
Qed.

Lemma to_period_M_mono (s s' : Z) : s <= s' -> to_period_M s <= to_period_M s'.
Proof.
  intros Hs. rewrite !to_period_M_era. cbv zeta.
  assert (Hd : s / 86400 + 719468 <= s' / 86400 + 719468).
  { apply Z.add_le_mono_r. apply Z.div_le_mono; lia. }
  set (z := s / 86400 + 719468) in *. set (z' := s' / 86400 + 719468) in *.
  assert (He : z / 146097 <= z' / 146097) by (apply Z.div_le_mono; lia).
  pose proof (doe_range z) as Hr. pose proof (doe_range z') as Hr'.
  set (doe := z - z / 146097 * 146097) in *.
  set (doe' := z' - z' / 146097 * 146097) in *.
  destruct (Z.eq_dec (z / 146097) (z' / 146097)) as [E|NE].
  - assert (Hdoe : doe <= doe') by (unfold doe, doe'; rewrite E; lia).
    pose proof (month_in_era_mono doe doe' ltac:(lia) ltac:(lia)). lia.
  - pose proof (doy_yoe_bounds doe Hr) as [_ Hy].
    pose proof (doy_yoe_bounds doe' Hr') as [_ Hy'].
    pose proof (mp_bounds doe Hr). pose proof (mp_bounds doe' Hr'). lia.
Qed.

Lemma signup_month_tenure (c : customer) :
  signup_month (add_columns c) = option_map signup_month_of_tenure (tenure c).
Proof.
  unfold add_columns, signup_month_of_tenure. cbn [signup_month].
  unfold signup_date_of. destruct (tenure c); reflexivity.
Qed.

(** X5. The signup month never increases with tenure: of two records whose
    tenures are within the range pandas can turn into a timedelta, the one
    with the larger tenure has the same or an earlier signup month. *)
Theorem signup_month_antitone (c1 c2 : customer) (t1 t2 : Z) :
  tenure c1 = Some t1 -> tenure c2 = Some t2 ->
  tenure_in_range t1 -> tenure_in_range t2 -> t1 <= t2 ->
  exists k1 k2, signup_month (add_columns c1) = Some k1 /\
                signup_month (add_columns c2) = Some k2 /\
                k2 <= k1.
Proof.
  intros H1 H2 _ _ Hle.
  rewrite !signup_month_tenure, H1, H2. cbn [option_map].
  eexists. eexists. split; [reflexivity|]. split; [reflexivity|].
  unfold signup_month_of_tenure. apply to_period_M_mono.
  unfold seconds_per_M. lia.
Qed.

Lemma signup_month_antitone_witness :
  exists k1 k2, signup_month (add_columns cust_dsl_active) = Some k1 /\
                signup_month (add_columns cust_fiber_churned) = Some k2 /\
                k2 <= k1.
Proof.
  assert (H : 1 <= 2) by lia.
  assert (R1 : tenure_in_range 1) by (unfold tenure_in_range; lia).
  assert (R2 : tenure_in_range 2) by (unfold tenure_in_range; lia).
  exact (signup_month_antitone cust_dsl_active cust_fiber_churned 1 2
           eq_refl eq_refl R1 R2 H).
Defined.

End Calendar.

(** ** Cell 2: what the month approximation does *)

Section CalendarGap.

Lemma signup_month_of_tenure_antitone (t1 t2 : Z) :
  t1 <= t2 -> signup_month_of_tenure t2 <= signup_month_of_tenure t1.
Proof.
  intros H. unfold signup_month_of_tenure. apply to_period_M_mono.
  unfold seconds_per_M. lia.
Qed.

(** X6. The signup month is an approximation of the tenure in calendar
    months: tenures 12 and 13 both fall in January 2019 (month 588), and no
    tenure within the range pandas can turn into a timedelta falls in
    February 2019 (month 589). *)
Theorem signup_month_collision_and_gap :
  (forall c, tenure c = Some 12 \/ tenure c = Some 13 ->
             signup_month (add_columns c) = Some 588) /\
  (forall c t, tenure c = Some t -> tenure_in_range t ->
               signup_month (add_columns c) <> Some 589).
Proof.
  assert (H11 : signup_month_of_tenure 11 = 590) by (vm_compute; reflexivity).
  assert (H12 : signup_month_of_tenure 12 = 588) by (vm_compute; reflexivity).
  assert (H13 : signup_month_of_tenure 13 = 588) by (vm_compute; reflexivity).
  split.
  - intros c [H|H]; rewrite signup_month_tenure, H; cbn [option_map];
      congruence.
  - intros c t Ht _. rewrite signup_month_tenure, Ht. cbn [option_map].
    intros [= E]. destruct (Z.le_gt_cases t 11) as [Hle|Hgt].
    + pose proof (signup_month_of_tenure_antitone t 11 Hle). lia.
    + pose proof (signup_month_of_tenure_antitone 12 t ltac:(lia)). lia.
Qed.

Lemma signup_month_collision_and_gap_witness :
  signup_month
    (add_columns (customer_of (Some "6713-OKOMC"%string) 12
                              "One year" "DSL" "No" "No" "No"))
  = Some 588.
Proof.
  assert (H : tenure (customer_of (Some "6713-OKOMC"%string) 12
                                  "One year" "DSL" "No" "No" "No") = Some 12
              \/ tenure (customer_of (Some "6713-OKOMC"%string) 12
                                     "One year" "DSL" "No" "No" "No") = Some 13)
    by (left; reflexivity).
  exact (proj1 signup_month_collision_and_gap _ H).
Defined.

End CalendarGap.

(** ** Cell 2: the cohort table as a whole *)

Section CohortTable.

Lemma insert_key_sorted (k : Z) (ks : list Z) :
  StronglySorted Z.lt ks -> StronglySorted Z.lt (insert_key k ks).
Proof.
  induction 1 as [|x ks Hs IH Hx]; cbn.
  - repeat constructor.
  - destruct (Z.ltb_spec k x) as [Hlt|Hge].
    + constructor; [now constructor|]. constructor; [exact Hlt|].
      eapply List.Forall_impl; [|exact Hx]. intros y Hy. cbn in Hy. lia.
    + destruct (Z.eqb_spec k x) as [->|Hne]; [now constructor|].
      constructor; [exact IH|]. apply List.Forall_forall. intros y Hy.
      apply insert_key_In in Hy as [->|Hy]; [lia|].
      rewrite List.Forall_forall in Hx. now apply Hx.
Qed.

Lemma group_keys_sorted (col : list (option Z)) :
  StronglySorted Z.lt (group_keys col).
Proof.
  induction col as [|[k|] col IH]; cbn.
  - constructor.
  - now apply insert_key_sorted.
  - exact IH.
Qed.

Lemma sorted_NoDup (ks : list Z) : StronglySorted Z.lt ks -> List.NoDup ks.
Proof.
  induction 1 as [|x ks Hs IH Hx]; constructor; [|exact IH].
  intros Hin. rewrite List.Forall_forall in Hx. specialize (Hx x Hin). lia.
Qed.

Lemma cohort_data_months (df : list row) :
  map cohort_signup_month (cohort_data df) = group_keys (map signup_month df).
Proof.
  unfold cohort_data. rewrite map_map. cbn [cohort_agg cohort_signup_month].
  apply map_id.
Qed.

(** X7. [cohort_data] lists the signup months in strictly increasing order,
    each once, and a month is listed exactly when some record has it. *)
Theorem cohort_months_sorted (df : list row) :
  StronglySorted Z.lt (map cohort_signup_month (cohort_data df)) /\
  (forall k, In k (map cohort_signup_month (cohort_data df)) <->
             exists r, In r df /\ signup_month r = Some k).
Proof.
  rewrite cohort_data_months. split; [apply group_keys_sorted|].
  intros k. rewrite group_keys_In, in_map_iff.
  split; intros [r [H1 H2]]; exists r; split; assumption.
Qed.

Lemma sum_Z_cons (x : Z) (l : list Z) : sum_Z (x :: l) = x + sum_Z l.
Proof. reflexivity. Qed.

Lemma sum_mask_sum_Z {T : Type} (p : T -> bool) (l : list T) :
  sum_mask (map p l) = sum_Z (map (fun x => if p x then 1 else 0) l).
Proof.
  induction l as [|x l IH]; [reflexivity|].
  cbn [map]. now rewrite sum_mask_cons, sum_Z_cons, IH.
Qed.

Lemma agg_count_sum_Z {T U : Type} (f : T -> option U) (l : list T) :
  agg_count (map f l) = sum_Z (map (fun x => if notna (f x) then 1 else 0) l).
Proof.
  induction l as [|x l IH]; [reflexivity|].
  cbn [map]. now rewrite agg_count_cons, sum_Z_cons, IH.
Qed.

Lemma sum_Z_key_absent (k0 c : Z) (g : Z -> Z) (keys : list Z) :
  ~ In k0 keys ->
  sum_Z (map (fun k => if k0 =? k then c + g k else g k) keys)
  = sum_Z (map g keys).
Proof.
  induction keys as [|k keys IH]; intros Hn; [reflexivity|].
  cbn [map]. rewrite !sum_Z_cons, IH by (intros H; apply Hn; now right).
  destruct (Z.eqb_spec k0 k) as [->|_]; [|reflexivity].
  exfalso. apply Hn. now left.
Qed.

Lemma sum_Z_key_once (k0 c : Z) (g : Z -> Z) (keys : list Z) :
  List.NoDup keys -> In k0 keys ->
  sum_Z (map (fun k => if k0 =? k then c + g k else g k) keys)
  = c + sum_Z (map g keys).
Proof.
  induction 1 as [|k keys Hk Hnd IH]; intros Hin; [destruct Hin|].
  cbn [map]. rewrite !sum_Z_cons.
  destruct (Z.eqb_spec k0 k) as [->|Hne].
  - rewrite sum_Z_key_absent by exact Hk. lia.
  - destruct Hin as [->|Hin]; [contradiction|]. rewrite IH by exact Hin. lia.
Qed.

(** Summing a per-record weight cohort by cohort counts every record that
    has a signup month exactly once. *)
Lemma cohort_sum (w : row -> Z) (keys : list Z) (df : list row) :
  List.NoDup keys ->
  (forall r k, In r df -> signup_month r = Some k -> In k keys) ->
  sum_Z (map (fun k => sum_Z (map w (cohort_group df k))) keys)
  = sum_Z (map w (List.filter has_signup_month df)).
Proof.
  intros Hnd. induction df as [|r df IH]; intros Hcov.
  - cbn. clear. induction keys as [|k keys IHk]; [reflexivity|].
    cbn. exact IHk.
  - specialize (IH (fun r' k Hr' => Hcov r' k (or_intror Hr'))).
    unfold cohort_group in *. cbn [List.filter]. unfold has_signup_month at 1.
    destruct (signup_month r) as [k0|] eqn:E; cbn [num_eq notna].
    + cbn [map]. rewrite sum_Z_cons, <- IH.
      rewrite <- (sum_Z_key_once k0 (w r) _ keys Hnd
                    (Hcov r k0 (or_introl eq_refl) E)).
      f_equal. apply map_ext. intros k.
      destruct (k0 =? k); reflexivity.
    + exact IH.
Qed.


Lemma group_keys_cover (df : list row) (r : row) (k : Z) :
  In r df -> signup_month r = Some k -> In k (group_keys (map signup_month df)).
Proof.
  intros Hr Hk. apply group_keys_In. rewrite <- Hk. now apply in_map.
Qed.

(** X8. The [total_customers] of all cohorts add up to the number of records
    that have a signup month and a customerID: every such record is counted
    in exactly one cohort, and a record without tenure in none. *)
Theorem cohort_totals_sum (df : list row) :
  sum_Z (map total_customers (cohort_data df))
  = agg_count (map (fun r => customerID (base r))
                   (List.filter has_signup_month df)).
Proof.
  unfold cohort_data. rewrite map_map.
  cbn [cohort_agg total_customers]. rewrite agg_count_sum_Z.
  rewrite <- (cohort_sum _ (group_keys (map signup_month df)) df).
  - f_equal. apply map_ext. intros k. apply agg_count_sum_Z.
  - apply sorted_NoDup, group_keys_sorted.
  - apply group_keys_cover.
Qed.

Lemma sum_mask_filter {T : Type} (p : T -> bool) (l : list T) :
  sum_mask (map p l) = Z.of_nat (length (List.filter p l)).
Proof.
  induction l as [|x l IH]; [reflexivity|].
  cbn [map List.filter]. rewrite sum_mask_cons, IH.
  destruct (p x); cbn [length]; lia.
Qed.

Lemma filter_all {T : Type} (p : T -> bool) (l : list T) :
  (forall x, In x l -> p x = true) -> List.filter p l = l.
Proof.
  induction l as [|x l IH]; intros H; [reflexivity|].
  cbn. rewrite (H x (or_introl eq_refl)), IH; [reflexivity|].
  intros y Hy. apply H. now right.
Qed.

(** X9. The [retained] of all cohorts add up to the number of records with a
    signup month whose flag is 0; when no record lacks its signup month this
    is the funnel's [still_active]. *)
Theorem cohort_retained_sum (df : list row) :
  sum_Z (map retained (cohort_data df))
  = sum_mask (map (fun r => num_eq (Churn_flag r) 0)
                  (List.filter has_signup_month df)) /\
  ((forall r, In r df -> signup_month r <> None) ->
   sum_Z (map retained (cohort_data df)) = still_active df).
Proof.
  assert (Hsum : sum_Z (map retained (cohort_data df))
                 = sum_mask (map (fun r => num_eq (Churn_flag r) 0)
                                 (List.filter has_signup_month df))).
  { unfold cohort_data. rewrite map_map.
    cbn [cohort_agg retained]. rewrite sum_mask_sum_Z.
    rewrite <- (cohort_sum _ (group_keys (map signup_month df)) df).
    - f_equal. apply map_ext. intros k. apply sum_mask_sum_Z.
    - apply sorted_NoDup, group_keys_sorted.
    - apply group_keys_cover. }
  split; [exact Hsum|]. intros Hall. rewrite Hsum.
  rewrite filter_all.
  - unfold still_active, shape0. rewrite boolean_index_map.
    apply sum_mask_filter.
  - intros r Hr. unfold has_signup_month.
    specialize (Hall r Hr). now destruct (signup_month r).
Qed.

Lemma sum_mask_exact {T : Type} (p q : T -> bool) (l : list T) :
  (forall x, In x l -> xorb (p x) (q x) = true) ->
  sum_mask (map p l) + sum_mask (map q l) = Z.of_nat (length l).
Proof.
  induction l as [|x l IH]; intros H; [reflexivity|].
  cbn [map length]. rewrite !sum_mask_cons, Nat2Z.inj_succ.
  specialize (IH (fun y Hy => H y (or_intror Hy))).
  specialize (H x (or_introl eq_refl)).
  destruct (p x), (q x); cbn in H; first [discriminate | lia].
Qed.

(** X10. In a cohort whose records all carry a customerID and a label 'Yes'
    or 'No', retained and churned records make up the cohort:
    [retained + churned = total_customers]. *)
Theorem cohort_split_exact (csv : list customer) (k : Z) :
  (forall r, In r (cohort_group (load csv) k) ->
             customerID (base r) <> None /\
             (Churn (base r) = Some "Yes"%string \/
              Churn (base r) = Some "No"%string)) ->
  retained (cohort_agg (load csv) k) + cohort_churned (load csv) k
  = total_customers (cohort_agg (load csv) k).
Proof.
  intros H. cbn [cohort_agg retained total_customers]. unfold cohort_churned.
  set (g := cohort_group (load csv) k) in *.
  rewrite agg_count_no_missing, length_map.
  - apply sum_mask_exact. intros r Hr. destruct (H r Hr) as [_ Hlab].
    apply cohort_group_In in Hr as [Hr _].
    apply load_In in Hr as [c [-> _]]. cbn [add_columns base] in Hlab.
    destruct Hlab as [Hy|Hn].
    + rewrite (proj2 (Churn_flag_one c) Hy). reflexivity.
    + rewrite (proj2 (Churn_flag_zero c) Hn). reflexivity.
  - intros x Hx. apply in_map_iff in Hx as [r [<- Hr]]. now apply H.
Qed.

Lemma cohort_retained_sum_witness :
  (forall r, In r (load [cust_dsl_active; cust_fiber_churned]) ->
             signup_month r <> None) /\
  sum_Z (map retained (cohort_data (load [cust_dsl_active; cust_fiber_churned])))
  = still_active (load [cust_dsl_active; cust_fiber_churned]).
Proof.
  assert (H : forall r, In r (load [cust_dsl_active; cust_fiber_churned]) ->
                        signup_month r <> None).
  { intros r [<-|[<-|[]]]; vm_compute; discriminate. }
  split; [exact H|].
  exact (proj2 (cohort_retained_sum
                  (load [cust_dsl_active; cust_fiber_churned])) H).
Defined.

Lemma cohort_split_exact_witness :
  retained (cohort_agg (load [cust_dsl_active; cust_fiber_churned]) 600)
  + cohort_churned (load [cust_dsl_active; cust_fiber_churned]) 600
  = total_customers (cohort_agg (load [cust_dsl_active; cust_fiber_churned])
                                600).
Proof.
  assert (H : forall r,
             In r (cohort_group (load [cust_dsl_active; cust_fiber_churned])
                                600) ->
             customerID (base r) <> None /\
             (Churn (base r) = Some "Yes"%string \/
              Churn (base r) = Some "No"%string)).
  { assert (Eg : cohort_group (load [cust_dsl_active; cust_fiber_churned]) 600
                 = load [cust_dsl_active])
      by (vm_compute; reflexivity).
    rewrite Eg. intros r [<-|[]]. split; [discriminate | right; reflexivity]. }
  exact (cohort_split_exact [cust_dsl_active; cust_fiber_churned] 600 H).
Defined.

End CohortTable.

(** ** Cell 3: what the funnel counts *)

Section FunnelCounts.

Lemma number_of_complement (P : row -> Prop) `{!forall r, Decision (P r)}
      (df : list row) :
  number_of P df + number_of (fun r => ~ P r) df = shape0 df.
Proof.
  unfold number_of, shape0. induction df as [|r df IH]; [reflexivity|].
  rewrite !filter_cons. cbn [length].
  destruct (decide (P r)) as [HP|HP].
  - rewrite decide_False by tauto. cbn [length]. lia.
  - rewrite decide_True by exact HP. cbn [length]. lia.
Qed.

(** X11. [has_internet] counts every row except those whose InternetService
    is 'No'; in particular a row whose InternetService cell is missing is
    counted as having internet. *)
Theorem has_internet_complement (df : list row) :
  has_internet df + number_of no_internet_service df = total_signed df /\
  number_of (fun r => InternetService (base r) = None) df <= has_internet df.
Proof.
  rewrite has_internet_number. split.
  - unfold total_signed.
    rewrite <- (number_of_complement no_internet_service df).
    rewrite Z.add_comm. reflexivity.
  - unfold number_of, has_internet_service.
    induction df as [|r df IH]; [reflexivity|].
    rewrite !filter_cons.
    destruct (decide (InternetService (base r) = None)) as [E|E].
    + rewrite decide_True by (rewrite E; discriminate). cbn [length]. lia.
    + destruct (decide (InternetService (base r) <> Some "No"%string));
        cbn [length]; lia.
Qed.

(** X12. [streaming] is the number of rows with StreamingTV 'Yes' plus the
    number with StreamingMovies 'Yes' minus the number with both: a row with
    both is counted once. *)
Theorem streaming_inclusion_exclusion (df : list row) :
  streaming df =
    number_of streams_tv df + number_of streams_movies df
    - number_of (fun r => streams_tv r /\ streams_movies r) df.
Proof.
  rewrite streaming_number. unfold number_of, uses_streaming, streams_tv,
    streams_movies.
  induction df as [|r df IH]; [reflexivity|].
  rewrite !filter_cons.
  destruct (decide (StreamingTV (base r) = Some "Yes"%string)) as [Ht|Ht];
    destruct (decide (StreamingMovies (base r) = Some "Yes"%string))
      as [Hm|Hm].
  - rewrite !decide_True by tauto. cbn [length]. lia.
  - rewrite decide_True, decide_False by tauto. cbn [length]. lia.
  - rewrite decide_True, decide_False by tauto. cbn [length]. lia.
  - rewrite !decide_False by tauto. lia.
Qed.

Lemma flag_zero_label (c : customer) :
  num_eq (Churn_flag (add_columns c)) 0 = cell_eq (Churn c) "No".
Proof.
  destruct (cell_eq (Churn c) "No") eqn:E.
  - apply num_eq_true, Churn_flag_zero. now apply cell_eq_true.
  - apply not_true_iff_false. intros H.
    apply num_eq_true, Churn_flag_zero, cell_eq_true in H. congruence.
Qed.

Lemma flag_one_label (c : customer) :
  num_eq (Churn_flag (add_columns c)) 1 = cell_eq (Churn c) "Yes".
Proof.
  destruct (cell_eq (Churn c) "Yes") eqn:E.
  - apply num_eq_true, Churn_flag_one. now apply cell_eq_true.
  - apply not_true_iff_false. intros H.
    apply num_eq_true, Churn_flag_one, cell_eq_true in H. congruence.
Qed.

(** X13. The funnel's [still_active] is the count that [churn_counts] holds
    for the label 'No' (0 when the label does not occur). *)
Theorem still_active_is_count_of_No (csv : list customer) :
  still_active (load csv) = default 0 (churn_counts csv !! "No"%string).
Proof.
  unfold churn_counts. rewrite value_counts_occurrences.
  pose proof (occurrences_bounds "No" (map Churn csv)) as Hb.
  transitivity (occurrences "No" (map Churn csv)).
  - unfold still_active, shape0, load. rewrite boolean_index_map.
    rewrite <- sum_mask_filter, map_map.
    unfold occurrences, series_eq. rewrite map_map. f_equal.
    apply map_ext. intros c. apply flag_zero_label.
  - destruct (Z.ltb_spec 0 (occurrences "No" (map Churn csv))); cbn; lia.
Qed.

End FunnelCounts.

(** ** Cell 4: the experiment tables *)

Section ExperimentTables.

Lemma set_group_assigned (t : list row) (labels : list group) :
  length labels = length t -> map assigned (set_group t labels) = labels.
Proof.
  unfold set_group. revert labels.
  induction t as [|r t IH]; intros [|g labels] Hlen; try discriminate.
  - reflexivity.
  - cbn. f_equal. apply IH. now injection Hlen.
Qed.

Lemma month_to_month_filter (df : list row) :
  month_to_month df =
    List.filter (fun r => cell_eq (Contract (base r)) "Month-to-month") df.
Proof.
  unfold month_to_month, series_eq. rewrite map_map. apply boolean_index_map.
Qed.

(** X14. [mtm] holds exactly the rows of [df] whose Contract is
    'Month-to-month', in their order, and its i-th row carries the i-th draw. *)
Theorem mtm_rows (df : list row) (rng : nat -> group) :
  map data (mtm df rng) =
    List.filter (fun r => cell_eq (Contract (base r)) "Month-to-month") df /\
  map assigned (mtm df rng) = choice rng (length (month_to_month df)) /\
  (forall (i : nat) (e : exp_row),
     mtm df rng !! i = Some e ->
     assigned e = rng i /\
     Contract (base (data e)) = Some "Month-to-month"%string).
Proof.
  assert (Hd : map data (mtm df rng) =
               List.filter
                 (fun r => cell_eq (Contract (base r)) "Month-to-month") df).
  { rewrite mtm_data. apply month_to_month_filter. }
  assert (Ha : map assigned (mtm df rng)
               = choice rng (length (month_to_month df))).
  { unfold mtm. apply set_group_assigned, choice_length. }
  split; [exact Hd|]. split; [exact Ha|]. intros i e Hi. split.
  - assert (Hl : map assigned (mtm df rng) !! i = Some (assigned e)).
    { change (map assigned (mtm df rng)) with (assigned <$> mtm df rng).
      now rewrite list_lookup_fmap, Hi. }
    rewrite Ha in Hl. unfold choice in Hl.
    change (map rng ?l) with (rng <$> l) in Hl.
    rewrite list_lookup_fmap in Hl.
    destruct (seq 0 (length (month_to_month df)) !! i) as [j|] eqn:Ej;
      [|discriminate].
    apply lookup_seq in Ej as [-> _]. cbn in Hl. congruence.
  - assert (Hin : In (data e) (map data (mtm df rng))).
    { apply in_map. apply list_elem_of_In. eapply list_elem_of_lookup_2.
      exact Hi. }
    rewrite Hd in Hin. apply List.filter_In in Hin as [_ Hc].
    now apply cell_eq_true.
Qed.

Lemma reported_churned_sum (t : list exp_row) (g : group) :
  reported_churned (groupby_agg t) g =
    agg_sum (map (fun r => Churn_flag (data r)) (group_rows t g)).
Proof.
  unfold reported_churned. rewrite agg_of_groupby.
  destruct (group_rows t g); reflexivity.
Qed.

Lemma agg_sum_groups (t : list exp_row) :
  agg_sum (map (fun r => Churn_flag (data r)) (group_rows t A))
  + agg_sum (map (fun r => Churn_flag (data r)) (group_rows t B))
  = agg_sum (map (fun r => Churn_flag (data r)) t).
Proof.
  unfold group_rows. induction t as [|r t IH]; [reflexivity|].
  cbn [List.filter map]. destruct (assigned r); cbn [group_eqb map];
    rewrite !agg_sum_cons; destruct (Churn_flag (data r)); lia.
Qed.

Lemma binary_flag_load (c : customer) :
  binary_flag (Churn_flag (add_columns c)).
Proof.
  unfold binary_flag. cbn. destruct (Churn c) as [s|]; [|now left].
  rewrite map_dict_churn.
  destruct (String.eqb s "Yes"); [now right; right|].
  destruct (String.eqb s "No"); [now right; left | now left].
Qed.

Lemma agg_sum_binary (col : list (option Z)) :
  (forall x, In x col -> binary_flag x) ->
  agg_sum col = sum_mask (map (fun x => num_eq x 1) col) /\
  0 <= agg_sum col <= agg_count col.
Proof.
  induction col as [|x col IH]; intros H;
    [split; [reflexivity | unfold agg_count; cbn; lia]|].
  destruct (IH (fun y Hy => H y (or_intror Hy))) as [IH1 IH2].
  cbn [map]. rewrite agg_sum_cons, agg_count_cons, sum_mask_cons.
  destruct (H x (or_introl eq_refl)) as [->|[->| ->]];
    cbn [notna num_eq Z.eqb Pos.eqb]; split; lia.
Qed.

Lemma month_to_month_In (df : list row) (r : row) :
  In r (month_to_month df) -> In r df.
Proof. rewrite month_to_month_filter, List.filter_In. tauto. Qed.

Lemma mtm_binary (csv : list customer) (rng : nat -> group) (e : exp_row) :
  In e (mtm (load csv) rng) -> binary_flag (Churn_flag (data e)).
Proof.
  intros He. assert (Hd : In (data e) (map data (mtm (load csv) rng)))
    by now apply in_map.
  rewrite mtm_data in Hd. apply month_to_month_In, load_In in Hd.
  destruct Hd as [c [-> _]]. apply binary_flag_load.
Qed.

Lemma treat_In (t : list exp_row) (e : exp_row) :
  In e (treat t) ->
  exists e0, In e0 t /\ (e = e0 \/ e = set_Churn_flag (Some 0) e0).
Proof.
  rewrite treat_map, in_map_iff. intros [e0 [He Hin]]. exists e0.
  split; [exact Hin|]. destruct (group_eqb (assigned e0) B); auto.
Qed.

Lemma mtm_effect_binary (csv : list customer) (rng : nat -> group)
      (e : exp_row) :
  In e (mtm_effect (load csv) rng) -> binary_flag (Churn_flag (data e)).
Proof.
  intros He. apply treat_In in He as [e0 [Hin [->| ->]]].
  - now apply (mtm_binary csv rng).
  - right. now left.
Qed.

(** X15. For every draw, the baseline churned counts of the two groups add up
    to the number of churned month-to-month records. *)
Theorem churned_partition (csv : list customer) (rng : nat -> group) :
  reported_churned (grouped (load csv) rng) A
  + reported_churned (grouped (load csv) rng) B
  = sum_mask (map (fun r => num_eq (Churn_flag r) 1)
                  (month_to_month (load csv))).
Proof.
  unfold grouped. rewrite !reported_churned_sum, agg_sum_groups.
  rewrite <- (map_map data Churn_flag), mtm_data.
  destruct (agg_sum_binary (map Churn_flag (month_to_month (load csv))))
    as [Hs _].
  { intros x Hx. apply in_map_iff in Hx as [r [<- Hr]].
    apply month_to_month_In, load_In in Hr. destruct Hr as [c [-> _]].
    apply binary_flag_load. }
  rewrite Hs, map_map. reflexivity.
Qed.

Lemma groupby_agg_well_formed (t : list exp_row) :
  (forall e, In e t -> binary_flag (Churn_flag (data e))) ->
  Forall rate_well_formed (groupby_agg t).
Proof.
  intros Hbin. apply List.Forall_forall. intros r Hr.
  assert (Hcol : exists g, r = agg_named g
                   (map (fun e => Churn_flag (data e)) (group_rows t g))).
  { unfold groupby_agg, group_agg in Hr. apply in_app_iff in Hr.
    destruct Hr as [Hr|Hr]; [exists A | exists B];
      (destruct (group_rows t _); [destruct Hr|]);
      destruct Hr as [<-|[]]; reflexivity. }
  destruct Hcol as [g ->]. unfold rate_well_formed.
  cbn [agg_named total churned rate].
  set (col := map (fun e => Churn_flag (data e)) (group_rows t g)).
  assert (Hb : 0 <= agg_sum col <= agg_count col).
  { apply agg_sum_binary. intros x Hx. unfold col in Hx.
    apply in_map_iff in Hx as [e [<- He]]. apply Hbin.
    now apply group_rows_In in He as [He _]. }
  split; [exact Hb|].
  destruct (Z.eq_dec (agg_count col) 0) as [E|NE].
  - left. split; [exact E|]. rewrite E, (agg_count_zero_sum col E).
    reflexivity.
  - right. split; [lia|]. apply truediv_unit; lia.
Qed.

(** X16. For every draw, each row of [grouped] and of [grouped_effect] has
    [0 <= churned <= total], and its rate is NaN when its total is 0 and
    within [0, 1] otherwise. *)
Theorem grouped_rates_well_formed (csv : list customer) (rng : nat -> group) :
  Forall rate_well_formed (grouped (load csv) rng) /\
  Forall rate_well_formed (grouped_effect (load csv) rng).
Proof.
  split; apply groupby_agg_well_formed.
  - apply mtm_binary.
  - apply mtm_effect_binary.
Qed.

(** X18. Applying the treatment twice is applying it once, and the treatment
    changes neither the group of a record nor any column read from the CSV. *)
Theorem treat_idempotent (t : list exp_row) :
  treat (treat t) = treat t /\
  map assigned (treat t) = map assigned t /\
  map (fun e => base (data e)) (treat t) = map (fun e => base (data e)) t.
Proof.
  rewrite !treat_map. repeat split.
  - rewrite map_map. apply map_ext. intros [d []]; reflexivity.
  - rewrite map_map. apply map_ext. intros [d []]; reflexivity.
  - rewrite map_map. apply map_ext. intros [d []]; reflexivity.
Qed.

(** X19. For every draw and each group, the treatment does not raise the
    reported churned count and does not lower the reported total (null flags
    of group B become 0 and are then counted). *)
Theorem treatment_never_adds_churn
        (csv : list customer) (rng : nat -> group) (g : group) :
  reported_churned (grouped_effect (load csv) rng) g
    <= reported_churned (grouped (load csv) rng) g /\
  reported_total (grouped (load csv) rng) g
    <= reported_total (grouped_effect (load csv) rng) g.
Proof.
  unfold grouped_effect, mtm_effect, grouped.
  rewrite !reported_churned_sum, !reported_total_count.
  destruct g.
  - rewrite treat_group_A. lia.
  - rewrite treat_group_B.
    destruct (zeroed_flags (group_rows (mtm (load csv) rng) B)) as [Hc Hs].
    rewrite Hc, Hs.
    set (col := map (fun r => Churn_flag (data r))
                    (group_rows (mtm (load csv) rng) B)).
    assert (Hb : 0 <= agg_sum col <= agg_count col).
    { apply agg_sum_binary. intros x Hx. unfold col in Hx.
      apply in_map_iff in Hx as [e [<- He]].
      apply group_rows_In in He as [He _]. now apply (mtm_binary csv rng). }
    pose proof (agg_count_bounds col) as Hn.
    assert (Hlen : length col = length (group_rows (mtm (load csv) rng) B))
      by apply length_map.
    unfold shape0. lia.
Qed.

Lemma mtm_rows_witness :
  assigned {| data := add_columns cust_fiber_churned; assigned := B |}
    = alternate 1 /\
  Contract (base (data {| data := add_columns cust_fiber_churned;
                          assigned := B |}))
    = Some "Month-to-month"%string.
Proof.
  assert (H : mtm (load [cust_dsl_active; cust_fiber_churned]) alternate !! 1%nat
              = Some {| data := add_columns cust_fiber_churned;
                        assigned := B |})
    by (vm_compute; reflexivity).
  exact (proj2 (proj2 (mtm_rows (load [cust_dsl_active; cust_fiber_churned])
                                alternate)) 1%nat _ H).
Defined.

End ExperimentTables.

(** ** Cell 4: running the cells *)

Section CellReruns.

(** X21. Running the treatment cell a second time succeeds and gives what
    the first run gave: after either run [mtm_effect] is the treated copy of
    [mtm] and [grouped_effect] its aggregation, and [mtm] itself still holds
    the untreated table. *)
Theorem cell_effect_rerun (σ : state) (m : list exp_row) :
  deref "mtm" σ = Some (Frame m) ->
  exists σ1 σ2,
    cell_effect σ = Some σ1 /\
    cell_effect σ1 = Some σ2 /\
    deref "mtm_effect" σ1 = Some (Frame (treat m)) /\
    deref "mtm_effect" σ2 = Some (Frame (treat m)) /\
    deref "grouped_effect" σ1 = Some (Result (groupby_agg (treat m))) /\
    deref "grouped_effect" σ2 = Some (Result (groupby_agg (treat m))) /\
    deref "mtm" σ2 = Some (Frame m).
Proof.
  intros Hm.
  destruct (cell_effect_run σ m Hm) as [σ1 [H1 [He1 [Hg1 Hfr1]]]].
  assert (Hm1 : deref "mtm" σ1 = Some (Frame m))
    by (apply Hfr1; [discriminate | discriminate | exact Hm]).
  destruct (cell_effect_run σ1 m Hm1) as [σ2 [H2 [He2 [Hg2 Hfr2]]]].
  exists σ1, σ2. repeat split; try assumption.
  apply Hfr2; [discriminate | discriminate | exact Hm1].
Qed.

Lemma cell_effect_rerun_witness :
  map (fun e => Churn_flag (data e))
      (mtm (load [cust_dsl_active; cust_fiber_churned]) alternate)
    = [Some 0; Some 1] /\
  map (fun e => Churn_flag (data e))
      (treat (mtm (load [cust_dsl_active; cust_fiber_churned]) alternate))
    = [Some 0; Some 0] /\
  exists σ0 σ1 σ2,
    cell_baseline alternate
      (initial_state (load [cust_dsl_active; cust_fiber_churned])) = Some σ0 /\
    cell_effect σ0 = Some σ1 /\
    cell_effect σ1 = Some σ2 /\
    deref "mtm_effect" σ2
      = Some (Frame (treat (mtm (load [cust_dsl_active; cust_fiber_churned])
                                alternate))) /\
    deref "mtm" σ2
      = Some (Frame (mtm (load [cust_dsl_active; cust_fiber_churned])
                         alternate)).
Proof.
  split; [vm_compute; reflexivity|]. split; [vm_compute; reflexivity|].
  assert (Hdf : deref "df"
                  (initial_state (load [cust_dsl_active; cust_fiber_churned]))
                = Some (Table (load [cust_dsl_active; cust_fiber_churned])))
    by apply deref_new_var.
  destruct (cell_baseline_run alternate _ _ Hdf) as [σ0 [Hb [_ [Hm _]]]].
  destruct (cell_effect_rerun σ0 _ Hm)
    as [σ1 [σ2 [H1 [H2 [_ [He2 [_ [_ Hm2]]]]]]]].
  exists σ0, σ1, σ2. repeat split; assumption.
Defined.

End CellReruns.
